(** * fstree: the path algebra ([fstree/path.py]) and the tar file name
    parser ([fstree/tarname.py])

    A shallow embedding of the two modules.  Python values are modelled as
    follows:
    - [str] is [string], tuples and lists of strings are [list string];
    - [int] is [Z], and slices clamp their bounds the way Python does;
    - a [dict] keyed by strings is a [gmap string _];
    - an exception is the [Raise] branch of [result]; every [raise]
      statement of the source has its own constructor in [exn];
    - attribute mutation is explicit state passing;
    - [six.PY3] is a parameter of the declarations of [tarname.py]. *)

From Stdlib Require Import ZArith String Ascii Lia.
From stdpp Require Import base option list strings gmap.

Open Scope string_scope.
Open Scope Z_scope.
Open Scope list_scope.

(** ** Python primitives *)

Module Py.

Inductive result (E A : Type) : Type :=
| Ok (a : A)
| Raise (e : E).
Arguments Ok {E A} a.
Arguments Raise {E A} e.

Definition bind {E A B} (m : result E A) (k : A → result E B) : result E B :=
  match m with
  | Ok a => k a
  | Raise e => Raise e
  end.

Section Sequences.
Context {A : Type}.

(** Bound of a slice, normalised against the length of the sequence:
    a negative bound counts from the end, and both ends are clamped. *)
Definition adjust (len k : Z) : Z :=
  if k <? 0 then Z.max 0 (len + k) else Z.min k len.

(** [l[k:]] *)
Definition slice_from (l : list A) (k : Z) : list A :=
  drop (Z.to_nat (adjust (Z.of_nat (length l)) k)) l.

(** [l[:k]] *)
Definition slice_to (l : list A) (k : Z) : list A :=
  take (Z.to_nat (adjust (Z.of_nat (length l)) k)) l.

(** [(x,) * n]: empty when [n <= 0] *)
Definition times (x : A) (n : Z) : list A := replicate (Z.to_nat n) x.

(** [l.pop()] inside [try: ... except IndexError: pass] *)
Definition pop_quietly (l : list A) : list A := removelast l.
End Sequences.

(** [s.startswith(p)] *)
Definition startswith (s p : string) : bool := String.prefix p s.

(** [s.endswith(p)] *)
Definition endswith (s p : string) : bool :=
  String.prefix
    (string_of_list_ascii (reverse (list_ascii_of_string p)))
    (string_of_list_ascii (reverse (list_ascii_of_string s))).

(** [s.split(sep)] for a non-empty separator.  [skip] counts the
    characters of a separator just matched that are still to be dropped. *)
Fixpoint split_from (sep : string) (skip : nat) (s : string) : list string :=
  match s with
  | EmptyString => [EmptyString]
  | String a s' =>
      match skip with
      | S k => split_from sep k s'
      | O =>
          if String.prefix sep s
          then EmptyString :: split_from sep (Nat.pred (String.length sep)) s'
          else match split_from sep O s' with
               | [] => [String a EmptyString]
               | w :: ws => String a w :: ws
               end
      end
  end.

Definition split (s sep : string) : list string := split_from sep O s.

(** [sep.join(l)] *)
Fixpoint join (sep : string) (l : list string) : string :=
  match l with
  | [] => EmptyString
  | [x] => x
  | x :: rest => x +:+ sep +:+ join sep rest
  end.

(** [s.rfind(c)] for a one-character [c]: the highest index, or [-1]. *)
Fixpoint rfind_from (c : ascii) (s : string) (i : Z) (found : Z) : Z :=
  match s with
  | EmptyString => found
  | String a s' => rfind_from c s' (i + 1) (if Ascii.eqb a c then i else found)
  end.

Definition rfind (s : string) (c : ascii) : Z := rfind_from c s 0 (-1).

(** String slices, through the list of characters. *)
Definition str_slice_to (s : string) (k : Z) : string :=
  string_of_list_ascii (slice_to (list_ascii_of_string s) k).

Definition str_slice_from (s : string) (k : Z) : string :=
  string_of_list_ascii (slice_from (list_ascii_of_string s) k).

(** [s.rstrip(c)] for a one-character [c] *)
Fixpoint lstrip_chars (c : ascii) (l : list ascii) : list ascii :=
  match l with
  | [] => []
  | a :: l' => if Ascii.eqb a c then lstrip_chars c l' else l
  end.

Definition rstrip (s : string) (c : ascii) : string :=
  string_of_list_ascii
    (reverse (lstrip_chars c (reverse (list_ascii_of_string s)))).

End Py.

(** ** Exceptions

    [IndexError] for sequence indexing, and one constructor per [raise]
    statement of the two modules (all of them raise [ValueError]; the
    arguments are the texts substituted for [%s] in the message). *)

Inductive exn : Type :=
| IndexError
  (* path.py: "one path absolute, one not" *)
| MismatchedPaths
  (* path.py: "relative parameter must be absolute path" *)
| ReferenceNotAbsolute
  (* Compression.__new__: "compression format %s already declared" *)
| AlreadyDeclared (name : string)
  (* Compression.__new__: "at least one extension must be provided" *)
| NoExtensions
  (* Compression.__new__: "extensions already declared for other
     compressions: ..." *)
| ExtensionCollisions (exts : list string)
  (* TarFileName.__init__: "tar filename references '%s' twice" *)
| DuplicateCompression (name : string)
  (* TarFileName.__init__: "tar filename contains both '%s' and '%s'
     compression" *)
| ConflictingCompressions (new old : string)
  (* TarFileName.__init__: "compression format '%s' not supported" *)
| UnsupportedFormat (name : string)
  (* TarFileName.__init__: "tar filename contains '%s' compression but no
     '.tar' extension" *)
| MissingTarExtension (name : string)
  (* compression setter: "compression is already set to '%s'" *)
| AlreadySet (current : string)
  (* compression setter: "unknown compression scheme '%s'" *)
| UnknownScheme (requested : string)
  (* compression setter: "compression scheme '%s' is unsupported" *)
| UnsupportedScheme (name : string).

(** The errors the loop of [TarFileName.__init__] raises. *)
Definition raised_in_loop (e : exn) : bool :=
  match e with
  | DuplicateCompression _ | ConflictingCompressions _ _
  | UnsupportedFormat _ => true
  | _ => false
  end.

Abbreviation result := (Py.result exn).
Abbreviation Ok := Py.Ok.
Abbreviation Raise := Py.Raise.

#[global] Instance result_bind : MBind (Py.result exn) :=
  fun A B k m => Py.bind m k.

(** ** The functions of [os.path] the two modules call (POSIX flavour) *)

Module OsPath.

(** Order of Python tuples of strings: the first differing items decide,
    otherwise the shorter tuple is the smaller one. *)
Fixpoint tuple_ltb (a b : list string) : bool :=
  match a, b with
  | [], [] => false
  | [], _ :: _ => true
  | _ :: _, [] => false
  | x :: a', y :: b' =>
      if String.eqb x y then tuple_ltb a' b' else String.ltb x y
  end.

(** [min(m)] and [max(m)] keep the first of equal candidates. *)
Definition py_min (s0 : list string) (m : list (list string)) : list string :=
  foldl (fun best s => if tuple_ltb s best then s else best) s0 m.

Definition py_max (s0 : list string) (m : list (list string)) : list string :=
  foldl (fun best s => if tuple_ltb best s then s else best) s0 m.

(** The loop [for i, c in enumerate(s1): if c != s2[i]: return s1[:i]],
    falling through to [return s1].  [rest] is what is left of [s1] to
    enumerate, [i] the index reached. *)
Fixpoint commonprefix_scan (rest : list string) (i : nat)
    (s1 s2 : list string) : result (list string) :=
  match rest with
  | [] => Ok s1
  | c :: rest' =>
      match s2 !! i with
      | None => Raise IndexError
      | Some d =>
          if bool_decide (c ≠ d) then Ok (take i s1)
          else commonprefix_scan rest' (S i) s1 s2
      end
  end.

Definition commonprefix (m : list (list string)) : result (list string) :=
  match m with
  | [] => Ok []
  | s0 :: m' =>
      let s1 := py_min s0 m' in
      let s2 := py_max s0 m' in
      commonprefix_scan s1 O s1 s2
  end.

(** Specification of [commonprefix] on two sequences: their longest
    common prefix. *)
Fixpoint lcp (a b : list string) : list string :=
  match a, b with
  | x :: a', y :: b' => if bool_decide (x = y) then x :: lcp a' b' else []
  | _, _ => []
  end.

Definition sep : ascii := "/"%char.
Definition extsep : ascii := "."%char.

(** [posixpath.split] *)
Definition split (p : string) : string * string :=
  let i := Py.rfind p sep + 1 in
  let head := Py.str_slice_to p i in
  let tail := Py.str_slice_from p i in
  let all_seps :=
    string_of_list_ascii (replicate (String.length head) sep) in
  if negb (bool_decide (head = "")) && negb (bool_decide (head = all_seps))
  then (Py.rstrip head sep, tail)
  else (head, tail).

(** The loop of [genericpath._splitext] that skips leading dots:
    [n] iterations are left, [filenameIndex] is the index reached. *)
Fixpoint splitext_scan (n : nat) (p : string) (filenameIndex dotIndex : Z)
    : string * string :=
  match n with
  | O => (p, "")
  | S n' =>
      if bool_decide
           (Py.str_slice_to (Py.str_slice_from p filenameIndex) 1
            ≠ String extsep "")
      then (Py.str_slice_to p dotIndex, Py.str_slice_from p dotIndex)
      else splitext_scan n' p (filenameIndex + 1) dotIndex
  end.

(** [posixpath.splitext] *)
Definition splitext (p : string) : string * string :=
  let sepIndex := Py.rfind p sep in
  let dotIndex := Py.rfind p extsep in
  if sepIndex <? dotIndex
  then splitext_scan (Z.to_nat (dotIndex - (sepIndex + 1))) p
         (sepIndex + 1) dotIndex
  else (p, "").

(** [posixpath.join(a, b)] *)
Definition join (a b : string) : string :=
  if Py.startswith b (String sep "") then b
  else if bool_decide (a = "") || Py.endswith a (String sep "") then a +:+ b
  else a +:+ String sep "" +:+ b.

(** [posixpath.join(a, *p)] *)
Definition joins (a : string) (p : list string) : string := foldl join a p.

(** [posixpath.isabs] *)
Definition isabs (s : string) : bool := Py.startswith s (String sep "").

(** One round of the loop of [posixpath.normpath]. *)
Definition normpath_step (initial_slashes : Z) (new_comps : list string)
    (comp : string) : list string :=
  if bool_decide (comp = "") || bool_decide (comp = ".") then new_comps
  else if bool_decide (comp ≠ "..")
          || ((initial_slashes =? 0) && bool_decide (new_comps = []))
          || match last new_comps with
             | None => false
             | Some e => bool_decide (e = "..")
             end
  then new_comps ++ [comp]
  else if negb (bool_decide (new_comps = [])) then removelast new_comps
  else new_comps.

(** [posixpath.normpath] *)
Definition normpath (path : string) : string :=
  if bool_decide (path = "") then "."
  else
    let initial_slashes :=
      if Py.startswith path "/" then
        (* POSIX allows one or two initial slashes, but treats three or
           more as single slash. *)
        if Py.startswith path "//" && negb (Py.startswith path "///")
        then 2 else 1
      else 0 in
    let comps :=
      foldl (normpath_step initial_slashes) [] (Py.split path "/") in
    let path := Py.join "/" comps in
    let path :=
      if negb (initial_slashes =? 0)
      then string_of_list_ascii (Py.times sep initial_slashes) +:+ path
      else path in
    if bool_decide (path = "") then "." else path.

End OsPath.

(** ** [fstree/path.py] *)

Module Path.

Definition root : string := "/".
Definition sep : string := "/".
Definition curdir : string := ".".
Definition pardir : string := "..".

(** An [FSPath] is a tuple of path elements with two extra attributes. *)
Record FSPath : Type := mkFSPath {
  elems : list string;
  _absolute : bool;
  _parents : Z;
}.

(** What callers pass where a path is expected: a string, a sequence of
    path elements, or an [FSPath]. *)
Inductive arg : Type :=
| AStr (s : string)
| ASeq (l : list string)
| AObj (p : FSPath).

(** One round of the normalisation loop of [__new__]. *)
Definition normalize_step (absolute : bool) (st : list string * Z)
    (elem : string) : list string * Z :=
  let '(path_elems, parents) := st in
  (* Skip empty elements *)
  if bool_decide (elem = "") || bool_decide (elem = curdir) then st
  (* Pop-up parent elements *)
  else if bool_decide (elem = pardir) then
    if absolute
       || match last path_elems with
          | None => false
          | Some e => bool_decide (e ≠ pardir)
          end
    then (Py.pop_quietly path_elems, parents)
    else (path_elems ++ [pardir], parents + 1)
  (* Add the element *)
  else (path_elems ++ [elem], parents).

(** [FSPath.__new__(cls, path, relative=None, parents=0, absolute=False)] *)
Definition FSPath_new (path : arg) (relative : option FSPath)
    (parents : Z) (absolute : bool) : FSPath :=
  match path with
  | ASeq l => mkFSPath l absolute parents
  | AObj p => mkFSPath (elems p) absolute parents
  | AStr path =>
      (* Is the path absolute?  If not, what's it relative to? *)
      let '(absolute, path_elems) :=
        match Py.startswith path root, relative with
        | false, Some relative => (true, elems relative)
        | _, _ => (Py.startswith path root, [])
        end in
      (* Now, normalize the path *)
      let '(path_elems, parents) :=
        foldl (normalize_step absolute) (path_elems, 0) (Py.split path sep) in
      mkFSPath path_elems absolute parents
  end.

(** [isinstance(x, FSPath)] or else [FSPath(x)] *)
Definition as_path (x : arg) : FSPath :=
  match x with
  | AObj p => p
  | _ => FSPath_new x None 0 false
  end.

(** [__str__] *)
Definition FSPath_str (self : FSPath) : string :=
  if negb (_absolute self) && bool_decide (elems self = []) then curdir
  else (if _absolute self then root else "") +:+ Py.join sep (elems self).

(** [__eq__] *)
Definition FSPath_eq (self : FSPath) (other : arg) : bool :=
  let other := as_path other in
  bool_decide ((_absolute self, elems self) = (_absolute other, elems other)).

(** [__ne__] *)
Definition FSPath_ne (self : FSPath) (other : arg) : bool :=
  let other := as_path other in
  bool_decide ((_absolute self, elems self) ≠ (_absolute other, elems other)).

Definition relative (self : FSPath) (start : arg) : result FSPath :=
  (* Normalize start path *)
  let start := as_path start in
  (* Make sure paths match in absoluteness *)
  if Z.lxor (Z.b2z (_absolute self)) (Z.b2z (_absolute start)) =? 1
  then Raise MismatchedPaths
  else
    (* Determine the common prefix *)
    prefix ← OsPath.commonprefix [elems self; elems start];
    let i := Z.of_nat (length prefix) in
    (* Set up and return the relative path *)
    let parents := Z.of_nat (length (elems start)) - i in
    Ok (FSPath_new
          (ASeq (Py.times pardir parents ++ Py.slice_from (elems self) i))
          None parents false).

Definition absolute (self : FSPath) (relative : arg) : result FSPath :=
  (* If we're already absolute, nothing else to do *)
  if _absolute self then Ok self
  else
    (* Sanity-check the relative path *)
    let relative := as_path relative in
    if negb (_absolute relative) then Raise ReferenceNotAbsolute
    else
      (* Normalize the path *)
      let relative :=
        if negb (_parents self =? 0)
        then Py.slice_to (elems relative) (- _parents self)
        else elems relative in
      Ok (FSPath_new
            (ASeq (relative ++ Py.slice_from (elems self) (_parents self)))
            None 0 true).

Definition is_absolute (self : FSPath) : bool := _absolute self.

(** The [parents] property *)
Definition parents (self : FSPath) : string :=
  Py.join sep (Py.slice_to (elems self) (_parents self)).

Definition remainder (self : FSPath) : string :=
  Py.join sep (Py.slice_from (elems self) (_parents self)).

Definition non_absolute (self : FSPath) : FSPath :=
  if _absolute self then FSPath_new (AObj self) None 0 false
  else self.

(** The structural invariant of the data model: an absolute path keeps
    no parent count; the count is not negative; exactly the first
    [_parents] elements are [pardir]; no element is [curdir]. *)
Definition invariant (p : FSPath) : Prop :=
  (_absolute p = true → _parents p = 0)
  ∧ (0 ≤ _parents p)
  ∧ (curdir ∉ elems p)
  ∧ (take (Z.to_nat (_parents p)) (elems p)
     = replicate (Z.to_nat (_parents p)) pardir)
  ∧ (pardir ∉ drop (Z.to_nat (_parents p)) (elems p)).

#[global] Instance invariant_dec p : Decision (invariant p).
Proof. unfold invariant. apply _. Defined.

(** What the normalisation loop of [__new__] maintains on its pair
    of [path_elems] and [parents]. *)
Definition loop_invariant (absolute : bool) (st : list string * Z) : Prop :=
  (0 ≤ st.2)
  ∧ (absolute = true → st.2 = 0)
  ∧ ∃ tail, st.1 = replicate (Z.to_nat st.2) pardir ++ tail
            ∧ (pardir ∉ tail) ∧ (curdir ∉ tail).

(** The paths the public operations produce: parsing a string (on its
    own, or against an absolute reference path), [relative], [absolute]
    and [non_absolute], applied to such paths. *)
Inductive produced : FSPath → Prop :=
| produced_parse s :
    produced (FSPath_new (AStr s) None 0 false)
| produced_parse_against s ref :
    produced ref → _absolute ref = true →
    produced (FSPath_new (AStr s) (Some ref) 0 false)
| produced_relative p q r :
    produced p → produced q → relative p (AObj q) = Ok r → produced r
| produced_absolute p q r :
    produced p → produced q → absolute p (AObj q) = Ok r → produced r
| produced_non_absolute p :
    produced p → produced (non_absolute p).

(** [get_system_path]; [None] is the [TypeError] of [os.path.join()]
    called without argument. *)
Definition get_system_path (self : FSPath) (fs_root : string)
    : option string :=
  if _absolute self then
    (* It's an absolute path, so append to the file system root *)
    Some (OsPath.joins fs_root (elems self))
  else
    (* We're a relative path, so just use the system path separator *)
    match elems self with
    | [] => None
    | a :: p => Some (OsPath.joins a p)
    end.

(** How the two runs of the normalisation loop correspond: the relative
    run keeps [n] parent markers where the run seeded with the elements
    [R] of the reference has dropped the last [n] of them. *)
Definition seeded (R : list string) (rel abs : list string * Z) : Prop :=
  abs.2 = 0 ∧ 0 ≤ rel.2
  ∧ ∃ tail, (pardir ∉ tail)
            ∧ rel.1 = replicate (Z.to_nat rel.2) pardir ++ tail
            ∧ abs.1 = take (length R - Z.to_nat rel.2) R ++ tail.

(** A path element as the parser leaves it: not empty, and free of the
    separator. *)
Definition clean (elem : string) : Prop :=
  elem ≠ "" ∧ OsPath.sep ∉ list_ascii_of_string elem.

End Path.

(** ** [fstree/tarname.py] *)

Module TarName.

(** A compression format descriptor.  The class refuses to declare a
    name twice, so a descriptor is identified by its name. *)
Record Compression : Type := mkCompression {
  name : string;
  supported : bool;
  extension : string;
}.

(** [x is y] on descriptors *)
Definition same (x y : Compression) : bool :=
  bool_decide (name x = name y).

(** An entry of the extension registry: a dictionary with at least one
    of the keys ["compression"] and ["has_tar_ext"]. *)
Record ext_info : Type := mkExtInfo {
  compression : option Compression;
  has_tar_ext : option bool;
}.

(** The two class-level registries of [Compression]. *)
Record registry : Type := mkRegistry {
  _compressions : gmap string Compression;
  _extensions : gmap string ext_info;
}.

Definition initial : registry :=
  mkRegistry ∅ {[ "tar" := mkExtInfo None (Some true) ]}.

(** [Compression.__new__(cls, name, supported, *extensions)]: the new
    descriptor and the registries after its declaration. *)
Definition Compression_new (cls : registry) (name : string)
    (supported : bool) (extensions : list string)
    : result (Compression * registry) :=
  (* Don't allow duplicates *)
  if bool_decide (is_Some (_compressions cls !! name))
  then Raise (AlreadyDeclared name)
  else
    (* Require at least one extension *)
    match extensions with
    | [] => Raise NoExtensions
    | first :: _ =>
        (* Don't allow extension collisions *)
        let collisions :=
          filter (fun ext => is_Some (_extensions cls !! ext)) extensions in
        if negb (bool_decide (collisions = []))
        then Raise (ExtensionCollisions collisions)
        else
          (* Create the compression *)
          let obj := mkCompression name supported ("." +:+ first) in
          (* Update the extensions registry *)
          let entries :=
            imap (fun i ext =>
                    (ext, if bool_decide (i = O)
                          then mkExtInfo (Some obj) None
                          else mkExtInfo (Some obj) (Some true)))
                 extensions in
          let exts :=
            foldl (fun m kv => <[ kv.1 := kv.2 ]> m) (_extensions cls)
                  entries in
          (* Cache the compression description *)
          Ok (obj, mkRegistry (<[ name := obj ]> (_compressions cls)) exts)
    end.

(** The declarations at the end of the module.  [PY3] is [six.PY3]. *)
Definition declarations (PY3 : bool) : list (string * bool * list string) :=
  [ ("gz", true, ["gz"; "tgz"; "taz"]);
    ("Z", false, ["Z"; "taZ"]);
    ("bz2", true, ["bz2"; "tbz"; "tbz2"; "tz2"]);
    ("lz", false, ["lz"]);
    ("lzma", false, ["lzma"; "tlz"]);
    ("lzo", false, ["lzo"]);
    ("xz", PY3, ["xz"; "txz"]) ].

Definition declare (cls : result registry)
    (d : string * bool * list string) : result registry :=
  cls ← cls;
  r ← Compression_new cls d.1.1 d.1.2 d.2;
  Ok r.2.

Definition import_module (PY3 : bool) : result registry :=
  foldl declare (Ok initial) (declarations PY3).

(** The registries once the module is imported. *)
Definition loaded (PY3 : bool) : registry :=
  match import_module PY3 with
  | Ok cls => cls
  | Raise _ => initial
  end.

(** What a [_compression] attribute or the parser state may hold: the
    sentinel [utils.unset], or a Python value. *)
Inductive value : Type :=
| VNone
| VStr (s : string)
| VComp (c : Compression).

Inductive slot : Type :=
| unset
| Held (v : value).

(** Truth value of a Python value *)
Definition truthy (v : value) : bool :=
  match v with
  | VNone => false
  | VStr s => negb (bool_decide (s = ""))
  | VComp _ => true
  end.

(** [str(v)], as substituted for [%s] *)
Definition str (v : value) : string :=
  match v with
  | VNone => "None"
  | VStr s => s
  | VComp c => name c
  end.

Record TarFileName : Type := mkTarFileName {
  basename : string;
  extensions : list string;
  _compression : slot;
}.

(** The [state] dictionary of the parser *)
Record parser_state : Type := mkState {
  state_compression : slot;
  state_has_tar_ext : bool;
}.

(** [state.update(data)] *)
Definition update (state : parser_state) (data : ext_info) : parser_state :=
  mkState
    (match compression data with
     | Some c => Held (VComp c)
     | None => state_compression state
     end)
    (match has_tar_ext data with
     | Some b => b
     | None => state_has_tar_ext state
     end).

Section WithRegistry.
Variable cls : registry.

Definition lookup_compression (name : string) : option Compression :=
  _compressions cls !! name.

Definition lookup_extension (ext : string) : option ext_info :=
  _extensions cls !! Py.str_slice_from ext 1.

(** [data = ext and Compression.lookup_extension(ext)], with [None]
    when [not ext or not data] *)
Definition next_data (ext : string) : option ext_info :=
  if bool_decide (ext = "") then None
  else match lookup_extension ext with
       | Some (mkExtInfo None None) => None
       | found => found
       end.

(** The sanity checks on an extension that carries a compression *)
Definition sanity_checks (state : parser_state) (data : ext_info)
    : result unit :=
  match compression data with
  | None => Ok tt
  | Some c =>
      (* Make sure compression hasn't been set yet *)
      match state_compression state with
      | Held (VComp c0) =>
          if same c0 c then Raise (DuplicateCompression (name c))
          else Raise (ConflictingCompressions (name c) (name c0))
      | Held v => Raise (ConflictingCompressions (name c) (str v))
      | unset =>
          (* Make sure compression is supported *)
          if negb (supported c) then Raise (UnsupportedFormat (name c))
          else Ok tt
      end
  end.

(** The [while not state['has_tar_ext']] loop.  [None] when [fuel]
    rounds were not enough. *)
Fixpoint parse_loop (fuel : nat) (basename : string)
    (extensions : list string) (state : parser_state)
    : option (result (string * list string * parser_state)) :=
  match fuel with
  | O => None
  | S fuel' =>
      if state_has_tar_ext state
      then Some (Ok (basename, extensions, state))
      else
        (* Get the next extension and its descriptor *)
        let '(root, ext) := OsPath.splitext basename in
        match next_data ext with
        | None => Some (Ok (basename, extensions, state))
        | Some data =>
            match sanity_checks state data with
            | Raise e => Some (Raise e)
            | Ok _ =>
                (* Update the state and save the extension *)
                parse_loop fuel' root (ext :: extensions)
                  (update state data)
            end
        end
  end.

(** [TarFileName.__init__]: every round of the loop shortens
    [basename], so its length bounds the number of rounds. *)
Definition TarFileName_init (filename : string)
    : option (result TarFileName) :=
  let '(dirname, basename) := OsPath.split filename in
  match parse_loop (S (String.length basename)) basename []
          (mkState unset false) with
  | None => None
  | Some (Raise e) => Some (Raise e)
  | Some (Ok (basename, extensions, state)) =>
      (* Did we get a compression without a '.tar' extension? *)
      match state_compression state, state_has_tar_ext state with
      | Held v, false => Some (Raise (MissingTarExtension (str v)))
      | _, has_tar =>
          (* Make sure we have a .tar extension *)
          let extensions :=
            if negb has_tar then ".tar" :: extensions else extensions in
          (* Assemble the filename and save the compression *)
          Some (Ok (mkTarFileName (OsPath.join dirname basename)
                      extensions (state_compression state)))
      end
  end.

(** The descriptors the loop obtains from [lookup_extension], in the
    order it obtains them; the last one may be the one at which a
    sanity check raises. *)
Fixpoint seen (fuel : nat) (basename : string) (state : parser_state)
    : list ext_info :=
  match fuel with
  | O => []
  | S fuel' =>
      if state_has_tar_ext state then []
      else
        let '(root, ext) := OsPath.splitext basename in
        match next_data ext with
        | None => []
        | Some data =>
            data ::
            match sanity_checks state data with
            | Raise _ => []
            | Ok _ => seen fuel' root (update state data)
            end
        end
  end.

Definition descriptors_seen (filename : string) : list ext_info :=
  let '(_, basename) := OsPath.split filename in
  seen (S (String.length basename)) basename (mkState unset false).

(** A compression extension is detected while parsing [filename]. *)
Definition compression_detected (filename : string) : bool :=
  existsb (fun data => bool_decide (is_Some (compression data)))
    (descriptors_seen filename).

(** An archive suffix (['.tar'] or a combined one) is seen while
    parsing [filename]. *)
Definition archive_suffix_seen (filename : string) : bool :=
  existsb (fun data => bool_decide (has_tar_ext data = Some true))
    (descriptors_seen filename).

(** A sanity check raises inside the loop. *)
Definition loop_raises (filename : string) : bool :=
  let '(_, basename) := OsPath.split filename in
  match parse_loop (S (String.length basename)) basename []
          (mkState unset false) with
  | Some (Raise _) => true
  | _ => false
  end.

(** [__str__] *)
Definition TarFileName_str (self : TarFileName) : string :=
  basename self +:+ Py.join "" (extensions self).

(** The [compression] property *)
Definition get_compression (self : TarFileName) : value :=
  match _compression self with
  | unset => VNone
  | Held v => v
  end.

(** The scheme a truthy request designates: the descriptor itself,
    or the one declared under the requested name. *)
Definition requested_scheme (compression : value) : option Compression :=
  match compression with
  | VComp c => Some c
  | VStr requested => lookup_compression requested
  | VNone => None
  end.

(** The setter of the [compression] property: the object after the
    assignment. *)
Definition set_compression (self : TarFileName) (compression : value)
    : result TarFileName :=
  (* Don't allow changing the compression *)
  match _compression self with
  | Held v => Raise (AlreadySet (str v))
  | unset =>
      (* Make sure the compression is supported *)
      if truthy compression then
        descriptor ←
          match compression with
          | VComp c => Ok c
          | VStr requested =>
              match lookup_compression requested with
              | None => Raise (UnknownScheme requested)
              | Some d => Ok d
              end
          | VNone => Raise (UnknownScheme (str VNone))
          end;
        if negb (supported descriptor)
        then Raise (UnsupportedScheme (name descriptor))
        else
          (* Set the extension, save the designated compression *)
          Ok (mkTarFileName (basename self)
                (extensions self ++ [extension descriptor])
                (Held (VComp descriptor)))
      else
        (* Save the designated compression *)
        Ok (mkTarFileName (basename self) (extensions self)
              (Held compression))
  end.

(** What the loop maintains: once the archive flag is up, the extension
    that raised it is the first of the list; a compression on record is a
    supported descriptor that one of the extensions looks up to. *)
Definition loop_shape (x : list string) (st : parser_state) : Prop :=
  (state_has_tar_ext st = true →
   ∃ e rest d, x = e :: rest ∧ lookup_extension e = Some d
               ∧ has_tar_ext d = Some true)
  ∧ (state_compression st = unset
     ∨ ∃ c, state_compression st = Held (VComp c) ∧ supported c = true
            ∧ ∃ e d, e ∈ x ∧ lookup_extension e = Some d
                     ∧ compression d = Some c).

(** Consistency of the two registries: a compression is filed under its
    own name and its canonical extension looks up to it; an extension
    entry that carries a compression carries a declared one, and an entry
    without compression is an archive suffix. *)
Definition consistent : Prop :=
  (∀ n c, _compressions cls !! n = Some c →
          name c = n
          ∧ ∃ d, lookup_extension (extension c) = Some d
                 ∧ compression d = Some c)
  ∧ (∀ e d c, _extensions cls !! e = Some d → compression d = Some c →
              _compressions cls !! name c = Some c)
  ∧ (∀ e d, _extensions cls !! e = Some d →
            is_Some (compression d) ∨ has_tar_ext d = Some true).

End WithRegistry.

End TarName.

(** ** [fstree/utils.py]: [deroot], [abspath] and [RelPath] *)

Module Utils.

(** The two [ValueError]s of the module, the [TypeError] of
    [os.path.join] called without argument, and what escapes from
    [os.path.commonprefix]. *)
Inductive utils_exn : Type :=
  (* deroot: "path '%s' outside of root '%s'" *)
| OutsideRoot (path root : string)
  (* RelPath.__init__: "no path specified" *)
| NoPath
| JoinWithoutArgument
| Escaped (e : exn).

#[global] Instance utils_bind : MBind (Py.result utils_exn) :=
  fun A B k m => Py.bind m k.

Definition deroot (path root : string) : Py.result utils_exn string :=
  (* Check if path is within the designated root *)
  if negb (bool_decide (root = "/")) then
    let len_root := Z.of_nat (String.length root) in
    let len_path := Z.of_nat (String.length path) in
    if (len_path <? len_root)
       || negb (bool_decide (Py.str_slice_to path len_root = root))
       || ((len_root <? len_path)
           && negb (bool_decide
                      (String.get (String.length root) path
                       = Some "/"%char)))
    then Raise (OutsideRoot path root)
    else
      (* Trim off the root *)
      let path := Py.str_slice_from path len_root in
      Ok (if bool_decide (path = "") then "/" else path)
  else Ok path.

(** [os.path.abspath], with the current working directory [getcwd] of
    the process. *)
Definition os_path_abspath (getcwd : string) (path : string) : string :=
  OsPath.normpath
    (if negb (OsPath.isabs path) then OsPath.join getcwd path else path).

(** [abspath(path, cwd=None, root='/')] *)
Definition abspath (getcwd : string) (path : string) (cwd : option string)
    (root : string) : Py.result utils_exn string :=
  (* Use the canonical abspath on the root *)
  let root := os_path_abspath getcwd root in
  (* Need to expand the path *)
  path ←
    (if negb (OsPath.isabs path) then
       cwd ← match cwd with
             | None => deroot getcwd root
             | Some cwd => Ok cwd
             end;
       Ok (OsPath.join cwd path)
     else Ok path);
  (* Normalize the full path *)
  Ok (OsPath.normpath path).

Record RelPath : Type := mkRelPath {
  path_list : list string;
  parents : Z;
  remainder : string;
}.

(** [os.path.join] applied to the unpacked list [elems] *)
Definition join_all (elems : list string) : Py.result utils_exn string :=
  match elems with
  | [] => Raise JoinWithoutArgument
  | a :: p => Ok (OsPath.joins a p)
  end.

(** [[e for e in path.split(os.sep) if e]] *)
Definition components (path : string) : list string :=
  filter (fun e => e ≠ "") (Py.split path "/").

(** [RelPath.__init__(self, path, start=os.curdir, root='/')]; the two
    calls of [abspath] pass [root] in the place of [cwd]. *)
Definition RelPath_init (getcwd : string) (path start root : string)
    : Py.result utils_exn RelPath :=
  if bool_decide (path = "") then Raise NoPath
  else
    (* Convert the paths into absolute paths *)
    path ← abspath getcwd path (Some root) "/";
    start ← abspath getcwd start (Some root) "/";
    (* Now let's split up the paths, omitting empty components *)
    let path_list := components path in
    let start_list := components start in
    (* Determine the common prefix and the remaining elements *)
    prefix ←
      match OsPath.commonprefix [path_list; start_list] with
      | Ok prefix => Ok prefix
      | Raise e => Raise (Escaped e)
      end;
    let i := Z.of_nat (length prefix) in
    let remainder := Py.slice_from path_list i in
    (* Store the parent length and the remainder *)
    remainder ←
      (if negb (bool_decide (remainder = [])) then join_all remainder
       else Ok "");
    Ok (mkRelPath path_list (Z.of_nat (length start_list) - i) remainder).

(** [RelPath.__str__] *)
Definition RelPath_str (self : RelPath) : Py.result utils_exn string :=
  (* If they were the same path, return . *)
  if (parents self =? 0) && bool_decide (remainder self = "") then Ok "."
  else
    (* OK, compute the parents *)
    let elems := Py.times ".." (parents self) in
    let elems :=
      if negb (bool_decide (remainder self = ""))
      then elems ++ [remainder self] else elems in
    join_all elems.

End Utils.

Import Path TarName.

(** * Facts about the Python primitives *)

Section SliceFacts.
Context {A : Type}.
Implicit Types l : list A.

Lemma slice_from_nonneg l k :
  0 ≤ k → Py.slice_from l k = drop (Z.to_nat k) l.
Proof.
  intros Hk. unfold Py.slice_from, Py.adjust.
  destruct (Z.ltb_spec k 0) as [?|_]; [lia|].
  destruct (Z.le_gt_cases k (Z.of_nat (length l))) as [Hle|Hgt].
  - by rewrite Z.min_l.
  - rewrite Z.min_r, Nat2Z.id by lia.
    rewrite !drop_ge; [done | lia | lia].
Qed.

Lemma slice_to_negative l k :
  0 < k → Py.slice_to l (- k) = take (length l - Z.to_nat k)%nat l.
Proof.
  intros Hk. unfold Py.slice_to, Py.adjust.
  destruct (Z.ltb_spec (- k) 0) as [_|?]; [|lia].
  f_equal. lia.
Qed.

Lemma times_length (x : A) n : length (Py.times x n) = Z.to_nat n.
Proof. apply length_replicate. Qed.

Lemma elem_of_drop_inv (x : A) n l : x ∈ drop n l → x ∈ l.
Proof. apply subseteq_drop. Qed.

Lemma elem_of_slice_to (x : A) l k : x ∈ Py.slice_to l k → x ∈ l.
Proof. apply subseteq_take. Qed.
End SliceFacts.

(** * Facts about [os.path.commonprefix] *)

Section CommonPrefix.
Import OsPath.

Lemma string_ltb_asym x y : String.ltb x y = true → String.ltb y x = false.
Proof.
  unfold String.ltb. rewrite (String.compare_antisym x y).
  by destruct (String.compare y x).
Qed.

Lemma string_ltb_total x y :
  String.ltb x y = false → String.ltb y x = false → x = y.
Proof.
  unfold String.ltb. rewrite (String.compare_antisym y x).
  destruct (String.compare x y) eqn:Hc; simpl; try done.
  intros _ _. by apply String.compare_eq_iff.
Qed.

Lemma tuple_ltb_asym a b : tuple_ltb a b = true → tuple_ltb b a = false.
Proof.
  revert b. induction a as [|x a IH]; intros [|y b]; simpl; try done.
  rewrite (String.eqb_sym y x).
  destruct (String.eqb x y); [apply IH | apply string_ltb_asym].
Qed.

Lemma tuple_ltb_total a b :
  tuple_ltb a b = false → tuple_ltb b a = false → a = b.
Proof.
  revert b. induction a as [|x a IH]; intros [|y b]; simpl; try done.
  rewrite (String.eqb_sym y x).
  destruct (String.eqb_spec x y) as [->|Hne].
  - intros H1 H2. f_equal. by apply IH.
  - intros H1 H2. destruct Hne. by apply string_ltb_total.
Qed.

Lemma lcp_comm a b : lcp a b = lcp b a.
Proof.
  revert b. induction a as [|x a IH]; intros [|y b]; simpl; try done.
  repeat case_bool_decide; subst; try done. by rewrite IH.
Qed.

Lemma lcp_take_l a b : take (length (lcp a b)) a = lcp a b.
Proof.
  revert b. induction a as [|x a IH]; intros [|y b]; simpl; try done.
  case_bool_decide; simpl; [by rewrite IH | done].
Qed.

Lemma lcp_take_r a b : take (length (lcp a b)) b = lcp a b.
Proof. rewrite (lcp_comm a b). apply lcp_take_l. Qed.

Lemma lcp_length_l a b : (length (lcp a b) ≤ length a)%nat.
Proof.
  rewrite <-(lcp_take_l a b) at 1. rewrite length_take. lia.
Qed.

Lemma lcp_length_r a b : (length (lcp a b) ≤ length b)%nat.
Proof. rewrite (lcp_comm a b). apply lcp_length_l. Qed.

Lemma lcp_app pre a b : lcp (pre ++ a) (pre ++ b) = pre ++ lcp a b.
Proof.
  induction pre as [|x pre IH]; simpl; [done|].
  by rewrite bool_decide_eq_true_2, IH.
Qed.

Lemma lcp_nil_r a : lcp a [] = [].
Proof. by destruct a. Qed.

Lemma drop_cons_lookup {A} (l : list A) i d l' :
  drop i l = d :: l' → l !! i = Some d ∧ drop (S i) l = l'.
Proof.
  revert l. induction i as [|i IH]; intros [|x l]; simpl; try done.
  - intros [= -> ->]. by rewrite drop_0.
  - apply IH.
Qed.

(** The scan never indexes [s2] out of range when what is left of [s1]
    is not above what is left of [s2], and it returns the longest common
    prefix. *)
Lemma commonprefix_scan_spec rest : ∀ i s1 s2 pre,
  s1 = pre ++ rest → length pre = i → take i s2 = pre →
  tuple_ltb rest (drop i s2) = true ∨ rest = drop i s2 →
  commonprefix_scan rest i s1 s2 = Ok (pre ++ lcp rest (drop i s2)).
Proof.
  induction rest as [|c rest IH]; intros i s1 s2 pre Hs1 Hlen Hpre Hord.
  - simpl. by rewrite Hs1.
  - simpl. destruct (drop i s2) as [|d s2'] eqn:Hdrop.
    { by destruct Hord. }
    destruct (drop_cons_lookup _ _ _ _ Hdrop) as [Hd Hdrop'].
    rewrite Hd. case_bool_decide as Hcd.
    + rewrite bool_decide_eq_false_2 by done.
      rewrite Hs1, take_app_length' by done. by rewrite app_nil_r.
    + subst d.
      rewrite bool_decide_eq_true_2 by done.
      rewrite (IH (S i) s1 s2 (pre ++ [c])).
      * by rewrite Hdrop', <-app_assoc.
      * by rewrite <-app_assoc.
      * rewrite length_app. simpl. lia.
      * by rewrite (take_S_r _ _ c), Hpre.
      * rewrite Hdrop'. simpl in Hord. rewrite String.eqb_refl in Hord.
        destruct Hord as [?|[= ?]]; auto.
Qed.

Lemma commonprefix_scan_lcp s1 s2 :
  tuple_ltb s1 s2 = true ∨ s1 = s2 →
  commonprefix_scan s1 O s1 s2 = Ok (lcp s1 s2).
Proof.
  intros H. by rewrite (commonprefix_scan_spec s1 O s1 s2 []).
Qed.

(** [os.path.commonprefix] of two tuples raises nothing and returns their
    longest common prefix. *)
Lemma commonprefix_pair a b : commonprefix [a; b] = Ok (lcp a b).
Proof.
  unfold commonprefix, py_min, py_max. simpl.
  destruct (tuple_ltb b a) eqn:Hba, (tuple_ltb a b) eqn:Hab.
  - by rewrite (tuple_ltb_asym _ _ Hba) in Hab.
  - rewrite (lcp_comm a b). apply commonprefix_scan_lcp. auto.
  - apply commonprefix_scan_lcp. auto.
  - rewrite (tuple_ltb_total a b) by done.
    apply commonprefix_scan_lcp. auto.
Qed.
End CommonPrefix.

(** * The path algebra *)

Section PathFacts.
Import OsPath.
Implicit Types (p q r t a b : FSPath) (start ref : arg).

(** ** What [relative] and [absolute] compute *)

Lemma relative_mismatch t start :
  _absolute t ≠ _absolute (as_path start) →
  relative t start = Raise MismatchedPaths.
Proof.
  unfold relative.
  by destruct (_absolute t), (_absolute (as_path start)).
Qed.

Lemma relative_matching t start :
  _absolute t = _absolute (as_path start) →
  let n := length (elems (as_path start)) in
  let i := length (lcp (elems t) (elems (as_path start))) in
  relative t start
  = Ok (mkFSPath (replicate (n - i) pardir ++ drop i (elems t)) false
          (Z.of_nat (n - i))).
Proof.
  intros Habs n i. unfold relative. rewrite Habs.
  assert ((Z.lxor (Z.b2z (_absolute (as_path start)))
             (Z.b2z (_absolute (as_path start))) =? 1) = false) as ->
    by by destruct (_absolute (as_path start)).
  rewrite commonprefix_pair. unfold mbind, result_bind. simpl.
  fold i n. pose proof (lcp_length_r (elems t) (elems (as_path start))).
  rewrite slice_from_nonneg, Nat2Z.id by lia.
  unfold Py.times.
  replace (Z.of_nat n - Z.of_nat i) with (Z.of_nat (n - i)) by (subst n i; lia).
  by rewrite Nat2Z.id.
Qed.

Lemma absolute_of_relative r ref :
  _absolute r = false → _absolute (as_path ref) = true →
  0 ≤ _parents r →
  absolute r ref
  = Ok (mkFSPath
          (take (length (elems (as_path ref)) - Z.to_nat (_parents r))
             (elems (as_path ref))
           ++ drop (Z.to_nat (_parents r)) (elems r))
          true 0).
Proof.
  intros Hr Href Hp. unfold absolute. rewrite Hr, Href. simpl.
  rewrite slice_from_nonneg by done.
  destruct (Z.eqb_spec (_parents r) 0) as [->|Hne]; simpl.
  - rewrite Nat.sub_0_r, take_ge; [done | lia].
  - rewrite slice_to_negative by lia. done.
Qed.

(** ** Mismatched operands of [relative] *)

(** C6: [target.relative(start)] raises the mismatched-path error exactly
    when one of the two paths is absolute and the other is not; when both
    are absolute or both are relative it raises nothing and its result is
    a relative path. *)
Theorem relative_raises_iff_mismatched t start :
  (relative t start = Raise MismatchedPaths
   ↔ _absolute t ≠ _absolute (as_path start))
  ∧ (_absolute t = _absolute (as_path start) →
     ∃ r, relative t start = Ok r ∧ is_absolute r = false).
Proof.
  split; [split|].
  - intros Hraise Heq. by rewrite (relative_matching _ _ Heq) in Hraise.
  - apply relative_mismatch.
  - intros Heq. rewrite (relative_matching _ _ Heq). eauto.
Qed.

(** ** Round trips *)

(** C1: for absolute paths [a] and [b], [a.relative(b).absolute(b)]
    raises nothing and yields a path equal to [a] (same absoluteness
    flag, same elements). *)
Theorem relative_absolute_roundtrip a b :
  _absolute a = true → _absolute b = true →
  ∃ x, (r ← relative a (AObj b); absolute r (AObj b)) = Ok x
       ∧ FSPath_eq x (AObj a) = true.
Proof.
  intros Ha Hb.
  rewrite relative_matching by (simpl; congruence). simpl.
  set (i := length (lcp (elems a) (elems b))).
  set (n := length (elems b)).
  pose proof (lcp_length_r (elems a) (elems b)) as Hin. fold i n in Hin.
  unfold mbind, result_bind. simpl.
  rewrite absolute_of_relative by (simpl; (done || lia)). simpl.
  eexists. split; [done|].
  unfold FSPath_eq. simpl. apply bool_decide_eq_true_2.
  rewrite Ha. f_equal.
  rewrite Nat2Z.id, drop_app_length' by (rewrite length_replicate; lia).
  replace (length (elems b) - (n - i))%nat with i by (subst n; lia).
  unfold i at 1. rewrite lcp_take_r, <-(lcp_take_l (elems a) (elems b)).
  fold i. apply take_drop.
Qed.

(** C5: when the parent count of a relative path [r] exceeds the number
    of elements of the absolute reference path, [r.absolute(reference)]
    raises nothing: the slice discards the whole reference, and the
    result is the absolute path made of the elements of [r] after its
    first [_parents r] ones. *)
Theorem absolute_beyond_reference r (reference : FSPath) :
  _absolute r = false → _absolute reference = true →
  Z.of_nat (length (elems reference)) < _parents r →
  absolute r (AObj reference)
  = Ok (mkFSPath (Py.slice_from (elems r) (_parents r)) true 0)
  ∧ Py.slice_to (elems reference) (- _parents r) = []
  ∧ Py.slice_from (elems r) (_parents r)
    = drop (Z.to_nat (_parents r)) (elems r).
Proof.
  intros Hr Href Hlt.
  assert (Py.slice_to (elems reference) (- _parents r) = []) as Hcut.
  { rewrite slice_to_negative by lia.
    replace (length (elems reference) - Z.to_nat (_parents r))%nat
      with O by lia.
    apply take_0. }
  split; [|split; [done | apply slice_from_nonneg; lia]].
  unfold absolute, as_path. rewrite Hr, Href. simpl.
  destruct (Z.eqb_spec (_parents r) 0) as [?|_]; [lia|]. simpl.
  by rewrite Hcut.
Qed.

Lemma lcp_heads_differ (l1 l2 : list string) :
  (∀ e, head l1 = Some e → head l2 ≠ Some e) → lcp l1 l2 = [].
Proof.
  destruct l1 as [|x l1], l2 as [|y l2]; simpl; try done.
  intros H. case_bool_decide; [|done]. subst. by destruct (H y).
Qed.

(** C2, amended: for an absolute [a] and a relative [r] whose parent
    count [k] is between 0 and the number of elements of [a], whose
    first [k] elements are the parent marker, and whose next element (if
    any) is not the element of [a] at index [len(a) - k],
    [r.absolute(a).relative(a)] raises nothing and returns [r]. *)
Theorem absolute_relative_roundtrip a r :
  _absolute a = true → _absolute r = false →
  0 ≤ _parents r ≤ Z.of_nat (length (elems a)) →
  take (Z.to_nat (_parents r)) (elems r)
  = replicate (Z.to_nat (_parents r)) pardir →
  (∀ e, head (drop (Z.to_nat (_parents r)) (elems r)) = Some e →
        elems a !! (length (elems a) - Z.to_nat (_parents r))%nat ≠ Some e) →
  (y ← absolute r (AObj a); relative y (AObj a)) = Ok r.
Proof.
  intros Ha Hr [Hp0 Hpn] Hmarkers Hnext.
  rewrite absolute_of_relative by done. simpl.
  unfold mbind, result_bind. simpl.
  set (k := Z.to_nat (_parents r)) in *.
  set (n := length (elems a)) in *.
  set (tail := drop k (elems r)) in *.
  rewrite relative_matching by (simpl; congruence). simpl. fold n.
  assert (lcp (take (n - k) (elems a) ++ tail) (elems a)
          = take (n - k) (elems a)) as Hlcp.
  { pose proof (lcp_app (take (n - k) (elems a)) tail
                  (drop (n - k) (elems a))) as Happ.
    rewrite take_drop in Happ. rewrite Happ.
    rewrite lcp_heads_differ, app_nil_r; [done|].
    intros e He. rewrite head_lookup, lookup_drop, Nat.add_0_r. auto. }
  rewrite Hlcp, length_take. fold n.
  replace (n - (n - k) `min` n)%nat with k by (subst n k; lia).
  rewrite drop_app_length' by (rewrite length_take; subst n k; lia).
  rewrite <-Hmarkers. subst tail. rewrite take_drop.
  subst k. rewrite Z2Nat.id by done. by destruct r; simpl in *; subst.
Qed.

(** The last condition of the amended round trip cannot be dropped: when
    the element of [r] after its parent markers is the one [absolute]
    trimmed off [a], the round trip returns a shorter path. *)
Lemma absolute_relative_roundtrip_only_if a r :
  _absolute a = true → _absolute r = false →
  0 ≤ _parents r ≤ Z.of_nat (length (elems a)) →
  take (Z.to_nat (_parents r)) (elems r)
  = replicate (Z.to_nat (_parents r)) pardir →
  (∃ x, (y ← absolute r (AObj a); relative y (AObj a)) = Ok x
        ∧ elems x = elems r) →
  ∀ e, head (drop (Z.to_nat (_parents r)) (elems r)) = Some e →
       elems a !! (length (elems a) - Z.to_nat (_parents r))%nat ≠ Some e.
Proof.
  intros Ha Hr [Hp0 Hpn] Hmarkers (x & Hround & Helems) e Hhead Hlook.
  rewrite absolute_of_relative in Hround by done.
  unfold mbind, result_bind in Hround. simpl in Hround.
  rewrite relative_matching in Hround by (simpl; congruence).
  simpl in Hround. injection Hround as <-. simpl in Helems.
  set (k := Z.to_nat (_parents r)) in *.
  set (n := length (elems a)) in *.
  set (tail := drop k (elems r)) in *.
  set (y := take (n - k) (elems a) ++ tail) in *.
  assert (length (elems r) = k + length tail)%nat as Hlen_r.
  { rewrite <-(take_drop k (elems r)) at 1.
    by rewrite length_app, Hmarkers, length_replicate. }
  assert (length y = n - k + length tail)%nat as Hlen_y.
  { subst y. rewrite length_app, length_take. subst n. lia. }
  assert (n - k < length (lcp y (elems a)))%nat as Hlong.
  { pose proof (lcp_app (take (n - k) (elems a)) tail
                  (drop (n - k) (elems a))) as Happ.
    rewrite take_drop in Happ. subst y. rewrite Happ.
    destruct tail as [|e' tail']; [done|]. injection Hhead as ->.
    destruct (drop (n - k) (elems a)) as [|d rest] eqn:Hdrop.
    { apply (f_equal (λ l, l !! O)) in Hdrop.
      rewrite lookup_drop, Nat.add_0_r, Hlook in Hdrop. done. }
    apply drop_cons_lookup in Hdrop as [Hd _].
    rewrite Hlook in Hd. injection Hd as <-.
    simpl. rewrite bool_decide_eq_true_2 by done.
    rewrite length_app, length_take. simpl. subst n. lia. }
  pose proof (lcp_length_l y (elems a)) as Hy.
  pose proof (lcp_length_r y (elems a)) as Hn. fold n in Hn.
  apply (f_equal length) in Helems.
  rewrite length_app, length_replicate, length_drop in Helems.
  subst k. lia.
Qed.

(** ** Parsing *)

(** C3, amended: parsing a string that does not start with the root
    marker, with no reference path, gives a relative path (the
    absoluteness flag is false). *)
Theorem parse_without_reference_is_relative s parents absolute :
  Py.startswith s root = false →
  is_absolute (FSPath_new (AStr s) None parents absolute) = false.
Proof.
  intros Hs. unfold FSPath_new. rewrite Hs.
  by destruct (foldl (normalize_step false) _ _).
Qed.

(** ** The structural invariant *)

Lemma elem_of_removelast {A} (x : A) (l : list A) :
  x ∈ removelast l → x ∈ l.
Proof.
  induction l as [|y l _] using rev_ind; [done|].
  rewrite removelast_last. set_solver.
Qed.

Lemma normalize_step_invariant absolute st elem :
  loop_invariant absolute st →
  loop_invariant absolute (normalize_step absolute st elem).
Proof.
  destruct st as [pe n]. intros (Hn & Habs & tail & Hpe & Hpar & Hcur).
  simpl in *. subst pe. unfold normalize_step.
  destruct (bool_decide (elem = "") || bool_decide (elem = curdir)) eqn:Hskip.
  { unfold loop_invariant. simpl. eauto 10. }
  apply orb_false_elim in Hskip as [_ Hnc%bool_decide_eq_false].
  case_bool_decide as Hpd.
  - (* a parent element *)
    destruct (absolute || _) eqn:Hpop.
    + (* pop *)
      assert (tail ≠ [] ∨ (tail = [] ∧ n = 0)) as [Hne|[-> ->]].
      { destruct absolute; simpl in Hpop.
        - destruct tail; [right|left]; auto.
        - left. intros ->. rewrite app_nil_r in Hpop.
          destruct (Z.to_nat n) as [|m] eqn:Hm; [simpl in Hpop; done|].
          rewrite replicate_S_end, last_snoc in Hpop.
          by apply bool_decide_eq_true in Hpop. }
      * unfold Py.pop_quietly. rewrite removelast_app by done.
        repeat split; simpl; auto. exists (removelast tail).
        repeat split; auto; intros ?%elem_of_removelast; auto.
      * repeat split; simpl; auto. exists []. simpl.
        repeat split; auto; apply not_elem_of_nil.
    + (* keep the parent element *)
      apply orb_false_elim in Hpop as [-> Hlast].
      assert (tail = []) as ->.
      { destruct tail as [|x tail _] using rev_ind; [done|].
        rewrite app_assoc, last_snoc in Hlast.
        apply bool_decide_eq_false in Hlast. apply dec_stable in Hlast.
        subst x. destruct Hpar. set_solver. }
      repeat split; simpl; [lia | done |].
      exists []. rewrite !app_nil_r. split; [|split; apply not_elem_of_nil].
      rewrite Z2Nat.inj_add by lia. change (Z.to_nat 1) with 1%nat.
      by rewrite Nat.add_1_r, replicate_S_end.
  - (* an ordinary element *)
    repeat split; simpl; auto. exists (tail ++ [elem]).
    rewrite app_assoc. split; [done|].
    split; intros [?|Heq%list_elem_of_singleton]%elem_of_app; auto.
Qed.

Lemma foldl_normalize_invariant absolute l : ∀ st,
  loop_invariant absolute st →
  loop_invariant absolute (foldl (normalize_step absolute) st l).
Proof.
  induction l as [|elem l IH]; intros st Hst; simpl; [done|].
  by apply IH, normalize_step_invariant.
Qed.

Lemma loop_invariant_path absolute pe n :
  loop_invariant absolute (pe, n) → invariant (mkFSPath pe absolute n).
Proof.
  intros (Hn & Habs & tail & Hpe & Hpar & Hcur). simpl in *.
  assert (curdir ∉ replicate (Z.to_nat n) pardir) as Hrep.
  { intros [? _]%elem_of_replicate. done. }
  unfold invariant. simpl. subst pe.
  rewrite take_app_length', drop_app_length' by (by rewrite length_replicate).
  repeat split; auto.
  intros [?|?]%elem_of_app; auto.
Qed.

(** Parsing a string on its own yields a path that satisfies the
    invariant. *)
Lemma parse_invariant s parents absolute :
  invariant (FSPath_new (AStr s) None parents absolute).
Proof.
  unfold FSPath_new.
  destruct (Py.startswith s root);
    destruct (foldl _ _ _) as [pe n] eqn:Hfold;
    apply loop_invariant_path; rewrite <-Hfold;
    apply foldl_normalize_invariant;
    (repeat split; simpl; [done..|]); exists []; simpl;
    repeat split; auto; apply not_elem_of_nil.
Qed.

(** So does parsing it against an absolute reference path that satisfies
    the invariant. *)
Lemma parse_against_invariant s (reference : FSPath) parents absolute :
  invariant reference → _absolute reference = true →
  invariant (FSPath_new (AStr s) (Some reference) parents absolute).
Proof.
  intros (Hzero & _ & Hcur & _ & Hpar) Href.
  rewrite (Hzero Href) in Hpar. simpl in Hpar. rewrite drop_0 in Hpar.
  unfold FSPath_new.
  destruct (Py.startswith s root) eqn:Hs;
    destruct (foldl _ _ _) as [pe n] eqn:Hfold;
    apply loop_invariant_path; rewrite <-Hfold;
    apply foldl_normalize_invariant;
    (repeat split; simpl; [done..|]).
  - exists []. simpl. repeat split; auto; apply not_elem_of_nil.
  - exists (elems reference). simpl. auto.
Qed.

(** X3: [absolute] preserves the invariant. *)
Theorem absolute_invariant p q r :
  invariant p → invariant q → absolute p (AObj q) = Ok r → invariant r.
Proof.
  intros Hp Hq. unfold absolute.
  destruct (_absolute p) eqn:Hap; [by intros [= <-]|]. simpl.
  destruct (_absolute q) eqn:Haq; [|done]. simpl. intros [= <-].
  destruct Hp as (_ & Hp0 & Hpcur & _ & Hppar).
  destruct Hq as (Hq0 & _ & Hqcur & _ & Hqpar).
  rewrite (Hq0 Haq) in Hqpar. simpl in Hqpar. rewrite drop_0 in Hqpar.
  rewrite slice_from_nonneg by done.
  assert (∀ x, x ∈ (if negb (_parents p =? 0)
                    then Py.slice_to (elems q) (- _parents p)
                    else elems q) → x ∈ elems q) as Hsub.
  { intros x. destruct (negb _); [apply elem_of_slice_to | done]. }
  unfold invariant. simpl. rewrite drop_0.
  repeat split; auto; try done.
  - intros [?%Hsub|?%elem_of_drop_inv]%elem_of_app; auto.
  - intros [?%Hsub|?]%elem_of_app; auto.
Qed.

(** X4: [non_absolute] preserves the invariant. *)
Theorem non_absolute_invariant p : invariant p → invariant (non_absolute p).
Proof.
  intros Hp. unfold non_absolute.
  destruct (_absolute p) eqn:Hap; [|done].
  destruct Hp as (Hp0 & _ & Hcur & _ & Hpar).
  rewrite (Hp0 Hap) in Hpar.
  unfold invariant. simpl in *. repeat split; auto; lia.
Qed.

(** X5: [relative] preserves the invariant when the target holds no
    parent reference, which is the case of every absolute path. *)
Theorem relative_invariant p q r :
  invariant p → _parents p = 0 → relative p (AObj q) = Ok r → invariant r.
Proof.
  intros (_ & _ & Hcur & _ & Hpar) Hzero.
  rewrite Hzero in Hpar. simpl in Hpar. rewrite drop_0 in Hpar.
  destruct (decide (_absolute p = _absolute q)) as [Heq|Hne].
  - rewrite relative_matching by done. simpl. intros [= <-].
    unfold invariant. simpl. rewrite Nat2Z.id.
    rewrite take_app_length', drop_app_length' by (by rewrite length_replicate).
    repeat split; auto; try lia; try done.
    + intros [[? _]%elem_of_replicate|?%elem_of_drop_inv]%elem_of_app; done.
    + intros ?%elem_of_drop_inv. done.
  - by rewrite relative_mismatch.
Qed.

(** C4: the relative path from the empty relative path to [".."] is
    produced by public operations on parsed strings, yet it holds the
    parent marker with a parent count of 0, which breaks the invariant:
    its [parents] property is empty and its [remainder] is [".."]. *)
Theorem relative_breaks_invariant :
  let target := FSPath_new (AStr "..") None 0 false in
  let start := FSPath_new (AStr ".") None 0 false in
  let r := mkFSPath [".."] false 0 in
  invariant target ∧ invariant start
  ∧ relative target (AObj start) = Ok r
  ∧ produced r
  ∧ ¬ invariant r
  ∧ parents r = "" ∧ remainder r = "..".
Proof.
  intros target start r.
  assert (relative target (AObj start) = Ok r) as Hrel
    by (vm_compute; reflexivity).
  split; [apply parse_invariant|]. split; [apply parse_invariant|].
  split; [exact Hrel|]. split; [|split].
  - eapply produced_relative; [| |exact Hrel]; apply produced_parse.
  - intros (_ & _ & _ & _ & Hpar). apply Hpar. simpl. set_solver.
  - split; vm_compute; reflexivity.
Qed.

End PathFacts.

(** * The tar file name parser *)

Section StringFacts.
Lemma string_length_of_list (l : list ascii) :
  String.length (string_of_list_ascii l) = length l.
Proof. induction l as [|a l IH]; simpl; [done | by rewrite IH]. Qed.

Lemma list_length_of_string (s : string) :
  length (list_ascii_of_string s) = String.length s.
Proof. induction s as [|a s IH]; simpl; [done | by rewrite IH]. Qed.

Lemma rfind_from_bounds c s : ∀ i found,
  Py.rfind_from c s i found = found
  ∨ i ≤ Py.rfind_from c s i found < i + Z.of_nat (String.length s).
Proof.
  induction s as [|a s IH]; intros i found; simpl; [by left|].
  destruct (IH (i + 1) (if Ascii.eqb a c then i else found)) as [->|?];
    [|right; lia].
  destruct (Ascii.eqb a c); [right; lia | by left].
Qed.

Lemma rfind_bounds s c :
  Py.rfind s c = -1 ∨ 0 ≤ Py.rfind s c < Z.of_nat (String.length s).
Proof. apply (rfind_from_bounds c s 0 (-1)). Qed.

Lemma str_slice_to_length s k :
  0 ≤ k ≤ Z.of_nat (String.length s) →
  String.length (Py.str_slice_to s k) = Z.to_nat k.
Proof.
  intros Hk. unfold Py.str_slice_to, Py.slice_to, Py.adjust.
  rewrite string_length_of_list, length_take, list_length_of_string.
  destruct (Z.ltb_spec k 0); lia.
Qed.
End StringFacts.

Section SplitextFacts.
Import OsPath.

Lemma splitext_scan_cases n : ∀ p filenameIndex dotIndex,
  splitext_scan n p filenameIndex dotIndex = (p, "")
  ∨ splitext_scan n p filenameIndex dotIndex
    = (Py.str_slice_to p dotIndex, Py.str_slice_from p dotIndex).
Proof.
  induction n as [|n IH]; intros p fi di; simpl; [by left|].
  case_bool_decide; [by right | apply IH].
Qed.

(** A non-empty extension leaves a strictly shorter root. *)
Lemma splitext_shrinks p root ext :
  splitext p = (root, ext) → ext ≠ "" →
  (String.length root < String.length p)%nat.
Proof.
  unfold splitext.
  destruct (Z.ltb_spec (Py.rfind p sep) (Py.rfind p extsep)) as [Hlt|_];
    [|by intros [= <- <-]].
  destruct (splitext_scan_cases
              (Z.to_nat (Py.rfind p extsep - (Py.rfind p sep + 1))) p
              (Py.rfind p sep + 1) (Py.rfind p extsep)) as [->| ->];
    [by intros [= <- <-]|].
  intros [= <- <-] _.
  destruct (rfind_bounds p sep), (rfind_bounds p extsep);
    rewrite str_slice_to_length; lia.
Qed.
End SplitextFacts.

Section ParserFacts.
Variable cls : registry.

Lemma next_data_nonempty ext data : next_data cls ext = Some data → ext ≠ "".
Proof. unfold next_data. by case_bool_decide. Qed.

(** The loop ends within the rounds [__init__] grants it. *)
Lemma parse_loop_terminates fuel : ∀ basename extensions state,
  (String.length basename < fuel)%nat →
  is_Some (parse_loop cls fuel basename extensions state).
Proof.
  induction fuel as [|fuel IH]; intros basename extensions state Hlen;
    [lia|]. simpl.
  destruct (state_has_tar_ext state); [done|].
  destruct (OsPath.splitext basename) as [root ext] eqn:Hsplit.
  destruct (next_data cls ext) as [data|] eqn:Hdata; [|done].
  destruct (sanity_checks state data); [|done].
  apply IH.
  pose proof (splitext_shrinks _ _ _ Hsplit (next_data_nonempty _ _ Hdata)).
  lia.
Qed.

(** X14: the loop of [TarFileName.__init__] terminates: on every file
    name the constructor returns or raises. *)
Theorem TarFileName_init_total filename :
  is_Some (TarFileName_init cls filename).
Proof.
  unfold TarFileName_init.
  destruct (OsPath.split filename) as [dirname basename].
  destruct (parse_loop_terminates (S (String.length basename)) basename []
              (mkState unset false)) as [[[[b x] st]|e] ->]; [lia| |done].
  by destruct (state_compression st), (state_has_tar_ext st).
Qed.

(** Inside the loop only the sanity checks raise. *)
Lemma parse_loop_raises fuel : ∀ basename extensions state e,
  parse_loop cls fuel basename extensions state = Some (Raise e) →
  raised_in_loop e = true.
Proof.
  induction fuel as [|fuel IH]; intros basename extensions state e;
    simpl; [done|].
  destruct (state_has_tar_ext state); [done|].
  destruct (OsPath.splitext basename) as [root ext].
  destruct (next_data cls ext) as [data|]; [|done].
  destruct (sanity_checks state data) as [[]|e'] eqn:Hcheck.
  - apply IH.
  - intros [= <-]. revert Hcheck. unfold sanity_checks.
    destruct (compression data) as [c|]; [|done].
    destruct (state_compression state) as [|[| |c0]];
      repeat case_match; by intros [= <-].
Qed.

(** When a compression is on record or is detected later, and no archive
    suffix is seen, a loop that ends without raising ends with a
    compression on record and no archive suffix. *)
Lemma parse_loop_detected fuel : ∀ basename extensions state,
  state_has_tar_ext state = false →
  state_compression state ≠ unset
  ∨ existsb (fun data => bool_decide (is_Some (compression data)))
      (seen cls fuel basename state) = true →
  existsb (fun data => bool_decide (has_tar_ext data = Some true))
    (seen cls fuel basename state) = false →
  ∀ b x st,
    parse_loop cls fuel basename extensions state = Some (Ok (b, x, st)) →
    state_compression st ≠ unset ∧ state_has_tar_ext st = false.
Proof.
  induction fuel as [|fuel IH]; intros basename extensions state Htar;
    simpl; [done|]. rewrite Htar.
  destruct (OsPath.splitext basename) as [root ext].
  destruct (next_data cls ext) as [data|].
  - simpl. intros Hdet [Hnotar Hrest]%orb_false_elim b x st.
    apply bool_decide_eq_false in Hnotar.
    destruct (sanity_checks state data) as [[]|e]; [|done].
    apply IH; [| |done].
    + unfold update. simpl. by destruct (has_tar_ext data) as [[]|].
    + unfold update. simpl.
      destruct Hdet as [?|[[c Hc]%bool_decide_eq_true|?]%orb_true_iff].
      * left. by destruct (compression data).
      * left. by rewrite Hc.
      * by right.
  - simpl. intros [Hset|?] _ b x st; [|done]. by intros [= <- <- <-].
Qed.
End ParserFacts.

Section TarFileNameFacts.

(** The declarations of the module raise nothing. *)
Lemma import_module_ok PY3 : import_module PY3 = Ok (loaded PY3).
Proof. by destruct PY3; vm_compute. Qed.

(** C7: parsing ['archive.tar.gz'] succeeds with base name ['archive'],
    extensions ['.tar'] then ['.gz'] and the gzip descriptor as
    compression, and the result renders as ['archive.tar.gz']. *)
Theorem parse_archive_tar_gz PY3 :
  ∃ gz self,
    lookup_compression (loaded PY3) "gz" = Some gz
    ∧ TarFileName_init (loaded PY3) "archive.tar.gz" = Some (Ok self)
    ∧ basename self = "archive"
    ∧ extensions self = [".tar"; ".gz"]
    ∧ get_compression self = VComp gz
    ∧ TarFileName_str self = "archive.tar.gz".
Proof.
  exists (mkCompression "gz" true ".gz").
  exists (mkTarFileName "archive" [".tar"; ".gz"]
            (Held (VComp (mkCompression "gz" true ".gz")))).
  destruct PY3; vm_compute; repeat split.
Qed.

(** C8, amended: when a compression extension is detected and no archive
    suffix is seen while parsing a file name, [TarFileName.__init__]
    raises and produces no value; the error is the missing-archive-suffix
    one when the loop over the extensions raised nothing, as for
    ['archive.gz'], and otherwise it is the duplicate, conflicting or
    unsupported compression error the loop raised. *)
Theorem compression_without_archive_suffix cls filename :
  compression_detected cls filename = true →
  archive_suffix_seen cls filename = false →
  ∃ e, TarFileName_init cls filename = Some (Raise e)
       ∧ (loop_raises cls filename = false → ∃ n, e = MissingTarExtension n)
       ∧ (loop_raises cls filename = true → raised_in_loop e = true).
Proof.
  unfold compression_detected, archive_suffix_seen, descriptors_seen,
    TarFileName_init, loop_raises.
  destruct (OsPath.split filename) as [dirname basename].
  intros Hdet Hnotar.
  destruct (parse_loop_terminates cls (S (String.length basename)) basename
              [] (mkState unset false)) as [[[[b x] st]|e] Hloop]; [lia| |].
  - rewrite Hloop.
    destruct (parse_loop_detected cls _ basename []
                (mkState unset false) eq_refl (or_intror Hdet)
                Hnotar _ _ _ Hloop) as [Hset ->].
    destruct (state_compression st) as [|v]; [done|].
    eexists. split; [done|]. split; [eauto | done].
  - rewrite Hloop. exists e. split; [done|]. split; [done|].
    intros _. apply (parse_loop_raises _ _ _ _ _ _ Hloop).
Qed.

(** C9: the setter raises the already-set error unless the compression is
    unset; when it is unset and the request names a scheme (a descriptor,
    or a non-empty name), it raises if the scheme is unknown or
    unsupported, and otherwise appends the canonical extension of the
    scheme and records it, after which every assignment raises the
    already-set error. *)
Theorem set_compression_once cls self requested :
  (∀ v, _compression self = Held v →
        set_compression cls self requested = Raise (AlreadySet (str v)))
  ∧ (_compression self = unset → truthy requested = true →
     match requested_scheme cls requested with
     | None =>
         set_compression cls self requested
         = Raise (UnknownScheme (str requested))
     | Some c =>
         if supported c then
           ∃ self',
             set_compression cls self requested = Ok self'
             ∧ basename self' = basename self
             ∧ extensions self' = extensions self ++ [extension c]
             ∧ get_compression self' = VComp c
             ∧ ∀ again, set_compression cls self' again
                        = Raise (AlreadySet (name c))
         else
           set_compression cls self requested
           = Raise (UnsupportedScheme (name c))
     end).
Proof.
  split.
  - intros v Hv. unfold set_compression. by rewrite Hv.
  - intros Hunset Htruthy.
    assert (∀ c, requested_scheme cls requested = Some c →
                 set_compression cls self requested
                 = if negb (supported c)
                   then Raise (UnsupportedScheme (name c))
                   else Ok (mkTarFileName (basename self)
                              (extensions self ++ [extension c])
                              (Held (VComp c)))) as Hknown.
    { intros c Hc. unfold set_compression. rewrite Hunset, Htruthy.
      destruct requested as [|s|c']; simpl in Hc; [done| |].
      - unfold mbind, result_bind. by rewrite Hc.
      - by injection Hc as ->. }
    destruct (requested_scheme cls requested) as [c|] eqn:Hscheme.
    + rewrite (Hknown c eq_refl).
      destruct (supported c); simpl; [|done].
      eexists. repeat split.
    + unfold set_compression. rewrite Hunset, Htruthy.
      destruct requested as [|s|c']; simpl in *; [done| |done].
      unfold mbind, result_bind. by rewrite Hscheme.
Qed.

(** C10, amended: assigning a falsy value to the compression of a
    [TarFileName] whose compression is unset succeeds whatever the
    registries hold, leaves the extensions as they are, and records the
    value: reading the property afterwards returns the value that was
    assigned ([None] when [None] was), and every later assignment raises
    the already-set error. *)
Theorem set_falsy_compression cls self v :
  _compression self = unset → truthy v = false →
  ∃ self',
    set_compression cls self v = Ok self'
    ∧ basename self' = basename self
    ∧ extensions self' = extensions self
    ∧ get_compression self' = v
    ∧ ∀ again, set_compression cls self' again = Raise (AlreadySet (str v)).
Proof.
  intros Hunset Hfalsy.
  exists (mkTarFileName (basename self) (extensions self) (Held v)).
  unfold set_compression. by rewrite Hunset, Hfalsy.
Qed.
End TarFileNameFacts.

(** * Concrete instances *)

Section Instances.

(** ** Paths *)

Example parse_collapses_parent :
  FSPath_new (AStr "/a/b/../c") None 0 false = mkFSPath ["a"; "c"] true 0.
Proof. vm_compute. reflexivity. Qed.

Example parse_keeps_leading_parents :
  FSPath_new (AStr "../../x") None 0 false
  = mkFSPath [".."; ".."; "x"] false 2.
Proof. vm_compute. reflexivity. Qed.

Example relative_of_siblings :
  ∃ r, relative (FSPath_new (AStr "/a/b/c") None 0 false) (AStr "/a/x") = Ok r
       ∧ r = mkFSPath [".."; "b"; "c"] false 1
       ∧ FSPath_str r = "../b/c".
Proof. eexists. split; [vm_compute; reflexivity|]. by vm_compute. Qed.

(** From ["a"] up to [".."]: two parent markers, one of them counted. *)
Example relative_undercounts_parents :
  relative (FSPath_new (AStr "..") None 0 false) (AStr "a")
  = Ok (mkFSPath [".."; ".."] false 1)
  ∧ bool_decide (invariant (mkFSPath [".."; ".."] false 1)) = false
  ∧ bool_decide (invariant (FSPath_new (AStr "../../x") None 0 false)) = true.
Proof. repeat split; vm_compute; reflexivity. Qed.

Lemma relative_raises_iff_mismatched_witness :
  let t := FSPath_new (AStr "/a/b") None 0 false in
  relative t (AStr "x") = Raise MismatchedPaths
  ∧ ∃ r, relative t (AStr "/a/x") = Ok r ∧ is_absolute r = false.
Proof.
  intros t. split.
  - apply (relative_raises_iff_mismatched t (AStr "x")). by vm_compute.
  - apply (relative_raises_iff_mismatched t (AStr "/a/x")). by vm_compute.
Defined.

Lemma relative_absolute_roundtrip_witness :
  let a := FSPath_new (AStr "/a/b/c") None 0 false in
  let b := FSPath_new (AStr "/a/x/y") None 0 false in
  _absolute a = true ∧ _absolute b = true
  ∧ ∃ x, (r ← relative a (AObj b); absolute r (AObj b)) = Ok x
         ∧ FSPath_eq x (AObj a) = true.
Proof.
  intros a b.
  assert (_absolute a = true) as Ha by reflexivity.
  assert (_absolute b = true) as Hb by reflexivity.
  split; [exact Ha|]. split; [exact Hb|].
  exact (relative_absolute_roundtrip a b Ha Hb).
Defined.

(** C2 as stated fails: ["../b"] has one parent reference, ["/a/b"] has
    two elements, and the round trip returns the empty relative path. *)
Lemma absolute_relative_roundtrip_counterexample :
  let a := FSPath_new (AStr "/a/b") None 0 false in
  let r := FSPath_new (AStr "../b") None 0 false in
  _absolute a = true ∧ _absolute r = false
  ∧ _parents r ≤ Z.of_nat (length (elems a))
  ∧ (y ← absolute r (AObj a); relative y (AObj a))
    = Ok (mkFSPath [] false 0)
  ∧ elems r = [".."; "b"]
  ∧ ¬ ∃ x, (y ← absolute r (AObj a); relative y (AObj a)) = Ok x
           ∧ _absolute x = _absolute r ∧ elems x = elems r.
Proof.
  intros a r.
  assert ((y ← absolute r (AObj a); relative y (AObj a))
          = Ok (mkFSPath [] false 0)) as Hround by (vm_compute; reflexivity).
  split; [reflexivity|]. split; [reflexivity|].
  split; [by vm_compute|]. split; [exact Hround|].
  split; [vm_compute; reflexivity|].
  intros (x & Hx & _ & Helems). rewrite Hround in Hx.
  injection Hx as <-. by vm_compute in Helems.
Qed.

Lemma absolute_relative_roundtrip_witness :
  let a := FSPath_new (AStr "/a/b") None 0 false in
  let r := FSPath_new (AStr "../c/d") None 0 false in
  (y ← absolute r (AObj a); relative y (AObj a)) = Ok r
  ∧ absolute r (AObj a) = Ok (mkFSPath ["a"; "c"; "d"] true 0).
Proof.
  intros a r. split; [|vm_compute; reflexivity].
  apply (absolute_relative_roundtrip a r).
  - reflexivity.
  - reflexivity.
  - by vm_compute.
  - reflexivity.
  - intros e He. vm_compute in He. injection He as <-. by vm_compute.
Defined.

(** C3 as stated fails: ["a"] does not start with the root marker, and
    parsing it without a reference gives a path that is not absolute. *)
Lemma parse_without_reference_counterexample :
  Py.startswith "a" root = false
  ∧ is_absolute (FSPath_new (AStr "a") None 0 false) = false
  ∧ ¬ (∀ s, Py.startswith s root = false →
            is_absolute (FSPath_new (AStr s) None 0 false) = true).
Proof.
  split; [reflexivity|]. split; [reflexivity|].
  intros H. specialize (H "a" eq_refl). by vm_compute in H.
Qed.

Lemma parse_without_reference_is_relative_witness :
  Py.startswith "a/../b" root = false
  ∧ is_absolute (FSPath_new (AStr "a/../b") None 0 false) = false.
Proof.
  split; [reflexivity|].
  apply parse_without_reference_is_relative. reflexivity.
Defined.

Lemma absolute_beyond_reference_witness :
  let r := FSPath_new (AStr "../../x") None 0 false in
  let reference := FSPath_new (AStr "/a") None 0 false in
  Z.of_nat (length (elems reference)) < _parents r
  ∧ absolute r (AObj reference) = Ok (mkFSPath ["x"] true 0).
Proof.
  intros r reference.
  assert (Z.of_nat (length (elems reference)) < _parents r) as Hlt
    by (by vm_compute).
  split; [exact Hlt|].
  exact (proj1 (absolute_beyond_reference r reference eq_refl eq_refl Hlt)).
Defined.

(** ** Tar file names *)

Example parse_archive_tgz PY3 :
  ∃ self, TarFileName_init (loaded PY3) "archive.tgz" = Some (Ok self)
          ∧ extensions self = [".tgz"]
          ∧ get_compression self = VComp (mkCompression "gz" true ".gz")
          ∧ TarFileName_str self = "archive.tgz".
Proof. eexists. by destruct PY3; vm_compute. Qed.

Example parse_archive_plain PY3 :
  TarFileName_init (loaded PY3) "archive"
  = Some (Ok (mkTarFileName "archive" [".tar"] unset)).
Proof. by destruct PY3; vm_compute. Qed.

Example parse_archive_gz PY3 :
  TarFileName_init (loaded PY3) "archive.gz"
  = Some (Raise (MissingTarExtension "gz")).
Proof. by destruct PY3; vm_compute. Qed.

Example parse_unsupported PY3 :
  TarFileName_init (loaded PY3) "archive.lzo"
  = Some (Raise (UnsupportedFormat "lzo")).
Proof. by destruct PY3; vm_compute. Qed.

(** C8 as stated fails: in ['archive.gz.gz'] a compression extension is
    detected and no archive suffix is seen, and the error raised is the
    duplicate-compression one. *)
Lemma compression_without_archive_suffix_counterexample :
  compression_detected (loaded true) "archive.gz.gz" = true
  ∧ archive_suffix_seen (loaded true) "archive.gz.gz" = false
  ∧ TarFileName_init (loaded true) "archive.gz.gz"
    = Some (Raise (DuplicateCompression "gz"))
  ∧ ¬ ∃ n, TarFileName_init (loaded true) "archive.gz.gz"
           = Some (Raise (MissingTarExtension n)).
Proof.
  assert (TarFileName_init (loaded true) "archive.gz.gz"
          = Some (Raise (DuplicateCompression "gz"))) as Hinit
    by (vm_compute; reflexivity).
  repeat split; try done; try (vm_compute; reflexivity).
  intros [n Hn]. by rewrite Hinit in Hn.
Qed.

Lemma compression_without_archive_suffix_witness :
  compression_detected (loaded true) "archive.gz" = true
  ∧ archive_suffix_seen (loaded true) "archive.gz" = false
  ∧ loop_raises (loaded true) "archive.gz" = false
  ∧ ∃ n, TarFileName_init (loaded true) "archive.gz"
         = Some (Raise (MissingTarExtension n)).
Proof.
  assert (compression_detected (loaded true) "archive.gz" = true) as Hdet
    by (vm_compute; reflexivity).
  assert (archive_suffix_seen (loaded true) "archive.gz" = false) as Hnot
    by (vm_compute; reflexivity).
  assert (loop_raises (loaded true) "archive.gz" = false) as Hquiet
    by (vm_compute; reflexivity).
  split; [exact Hdet|]. split; [exact Hnot|]. split; [exact Hquiet|].
  destruct (compression_without_archive_suffix (loaded true) "archive.gz"
              Hdet Hnot) as (e & Hinit & Hmissing & _).
  destruct (Hmissing Hquiet) as [n ->].
  exists n. exact Hinit.
Defined.

(** Setting gzip on a freshly parsed ['archive.tar'] renders
    ['archive.tar.gz'], and a second assignment raises. *)
Lemma set_compression_once_witness :
  let cls := loaded true in
  let self := mkTarFileName "archive" [".tar"] unset in
  TarFileName_init cls "archive.tar" = Some (Ok self)
  ∧ ∃ self',
      set_compression cls self (VStr "gz") = Ok self'
      ∧ TarFileName_str self' = "archive.tar.gz"
      ∧ set_compression cls self' (VStr "gz") = Raise (AlreadySet "gz").
Proof.
  intros cls self. split; [vm_compute; reflexivity|].
  destruct (set_compression_once cls self (VStr "gz")) as [_ Hunset].
  specialize (Hunset eq_refl eq_refl).
  assert (requested_scheme cls (VStr "gz")
          = Some (mkCompression "gz" true ".gz")) as Hscheme
    by (vm_compute; reflexivity).
  rewrite Hscheme in Hunset. simpl in Hunset.
  destruct Hunset as (self' & Hok & Hbase & Hexts & _ & Hagain).
  exists self'. split; [exact Hok|]. split; [|apply Hagain].
  unfold TarFileName_str. rewrite Hbase, Hexts. reflexivity.
Defined.

(** C10 as stated fails: the empty string is falsy, and after it is
    assigned the property reads back as the empty string, not as
    [None]. *)
Lemma set_falsy_compression_counterexample :
  let self := mkTarFileName "archive" [".tar"] unset in
  truthy (VStr "") = false
  ∧ (∃ self', set_compression (loaded true) self (VStr "") = Ok self'
              ∧ get_compression self' = VStr "")
  ∧ ¬ ∃ self', set_compression (loaded true) self (VStr "") = Ok self'
               ∧ get_compression self' = VNone.
Proof.
  intros self. split; [reflexivity|]. split.
  - eexists. split; reflexivity.
  - intros (self' & Hset & Hget). injection Hset as <-. discriminate Hget.
Qed.

Lemma set_falsy_compression_witness :
  let self := mkTarFileName "archive" [".tar"] unset in
  ∃ self',
    set_compression (loaded true) self VNone = Ok self'
    ∧ extensions self' = [".tar"]
    ∧ get_compression self' = VNone
    ∧ set_compression (loaded true) self' (VStr "gz")
      = Raise (AlreadySet "None").
Proof.
  intros self.
  destruct (set_falsy_compression (loaded true) self VNone eq_refl eq_refl)
    as (self' & Hok & _ & Hexts & Hget & Hagain).
  exists self'. split; [exact Hok|]. split; [exact Hexts|].
  split; [exact Hget|]. apply Hagain.
Defined.
End Instances.


(** * More on the path algebra *)

Section PathComposition.
Import OsPath.
Implicit Types (p q r t a b : FSPath).

Lemma lcp_refl (l : list string) : lcp l l = l.
Proof.
  induction l as [|x l IH]; simpl; [done|].
  by rewrite bool_decide_eq_true_2, IH.
Qed.

Lemma lcp_full_l (l1 l2 : list string) :
  length (lcp l1 l2) = length l1 → length (lcp l1 l2) = length l2 → l1 = l2.
Proof.
  intros H1 H2.
  rewrite <-(take_ge l1 (length (lcp l1 l2))), lcp_take_l by lia.
  rewrite <-(take_ge l2 (length (lcp l1 l2))) at 2 by lia.
  by rewrite lcp_take_r.
Qed.

(** X6: the relative path between two paths is empty exactly when the
    two paths are equal. *)
Theorem relative_empty_iff_equal t (start : arg) r :
  relative t start = Ok r →
  (elems r = [] ↔ FSPath_eq t start = true).
Proof.
  destruct (decide (_absolute t = _absolute (as_path start))) as [Heq|Hne];
    [|by rewrite relative_mismatch].
  rewrite relative_matching by done. simpl. intros [= <-]. simpl.
  unfold FSPath_eq. rewrite bool_decide_eq_true.
  pose proof (lcp_length_l (elems t) (elems (as_path start))) as Hl.
  pose proof (lcp_length_r (elems t) (elems (as_path start))) as Hr.
  split.
  - intros Hnil. apply (f_equal length) in Hnil.
    rewrite length_app, length_replicate, length_drop in Hnil. simpl in Hnil.
    f_equal; [done|]. apply lcp_full_l; lia.
  - intros [= _ Helems]. rewrite Helems, lcp_refl.
    by rewrite Nat.sub_diag, <-Helems, drop_all.
Qed.

(** What [a.relative(b).absolute(b)] is for absolute [a] and [b]. *)
Lemma relative_then_absolute a b :
  _absolute a = true → _absolute b = true →
  (r ← relative a (AObj b); absolute r (AObj b))
  = Ok (mkFSPath (elems a) true 0).
Proof.
  intros Ha Hb.
  rewrite relative_matching by (simpl; congruence). simpl.
  pose proof (lcp_length_r (elems a) (elems b)) as Hin.
  unfold mbind, result_bind. simpl.
  rewrite absolute_of_relative by (simpl; (done || lia)). simpl.
  do 2 f_equal.
  rewrite Nat2Z.id, drop_app_length' by (rewrite length_replicate; lia).
  replace (length (elems b) - (length (elems b)
             - length (lcp (elems a) (elems b))))%nat
    with (length (lcp (elems a) (elems b))) by lia.
  rewrite lcp_take_r.
  rewrite <-(lcp_take_l (elems a) (elems b)) at 1. apply take_drop.
Qed.

(** X7: a path computed by [relative] between absolute paths survives
    the round trip through [absolute] and back. *)
Theorem relative_is_canonical a b r :
  _absolute a = true → _absolute b = true →
  relative a (AObj b) = Ok r →
  (y ← absolute r (AObj b); relative y (AObj b)) = Ok r.
Proof.
  intros Ha Hb Hrel.
  pose proof (relative_then_absolute a b Ha Hb) as Hback.
  rewrite Hrel in Hback. unfold mbind, result_bind in *. simpl in Hback.
  rewrite Hback. simpl. rewrite <-Hrel.
  rewrite !relative_matching by (simpl; congruence). done.
Qed.

(** ** Parsing against a reference *)

Lemma normalize_step_seeded R rel abs elem :
  seeded R rel abs →
  seeded R (normalize_step false rel elem) (normalize_step true abs elem).
Proof.
  destruct rel as [pe n], abs as [pa m].
  intros (Hm & Hn & tail & Hpar & Hpe & Hpa). simpl in *. subst m pe pa.
  unfold normalize_step.
  destruct (bool_decide (elem = "") || bool_decide (elem = curdir)).
  { unfold seeded. simpl. eauto 10. }
  case_bool_decide as Hpd; simpl.
  - (* a parent element *)
    destruct tail as [|x tail _] using rev_ind.
    + rewrite !app_nil_r.
      assert (match last (replicate (Z.to_nat n) pardir) with
              | Some e => bool_decide (e ≠ pardir)
              | None => false
              end = false) as ->.
      { destruct (Z.to_nat n) as [|k]; [done|].
        rewrite replicate_S_end, last_snoc.
        by apply bool_decide_eq_false_2; intros []. }
      unfold seeded. simpl. split; [done|]. split; [lia|].
      exists []. rewrite !app_nil_r. split; [apply not_elem_of_nil|].
      rewrite Z2Nat.inj_add by lia. change (Z.to_nat 1) with 1%nat.
      split; [by rewrite Nat.add_1_r, replicate_S_end|].
      unfold Py.pop_quietly. rewrite removelast_firstn_len, length_take.
      rewrite take_take. f_equal. lia.
    + rewrite !app_assoc, last_snoc.
      rewrite bool_decide_eq_true_2
        by (intros ->; apply Hpar; set_solver).
      unfold Py.pop_quietly. rewrite !removelast_last.
      unfold seeded. simpl. split; [done|]. split; [done|].
      exists tail. split; [|done]. intros ?. apply Hpar. set_solver.
  - (* an ordinary element *)
    unfold seeded. simpl. split; [done|]. split; [done|].
    exists (tail ++ [elem]). rewrite !app_assoc. split; [|done].
    intros [?|?%list_elem_of_singleton]%elem_of_app; auto.
Qed.

Lemma foldl_normalize_seeded R l : ∀ rel abs,
  seeded R rel abs →
  seeded R (foldl (normalize_step false) rel l)
    (foldl (normalize_step true) abs l).
Proof.
  induction l as [|elem l IH]; intros rel abs Hs; simpl; [done|].
  by apply IH, normalize_step_seeded.
Qed.

(** X8: parsing a string against an absolute reference path gives what
    parsing it on its own and then calling [absolute] with the reference
    gives; in particular both clamp at the root. *)
Theorem parse_against_is_parse_then_absolute s (reference : FSPath) :
  _absolute reference = true →
  absolute (FSPath_new (AStr s) None 0 false) (AObj reference)
  = Ok (FSPath_new (AStr s) (Some reference) 0 false).
Proof.
  intros Href. unfold FSPath_new.
  destruct (Py.startswith s root) eqn:Hs.
  { destruct (foldl _ _ _) as [pe n]. done. }
  pose proof (foldl_normalize_seeded (elems reference) (Py.split s Path.sep)
                ([], 0) (elems reference, 0)) as Hsim.
  destruct (foldl (normalize_step false) _ _) as [pe n].
  destruct (foldl (normalize_step true) _ _) as [pa m].
  destruct Hsim as (Hm & Hn & tail & Hpar & Hpe & Hpa).
  { split; [done|]. split; [done|]. exists []. simpl.
    rewrite Nat.sub_0_r, take_ge, app_nil_r by lia.
    split; [apply not_elem_of_nil|done]. }
  simpl in *. subst m pe pa.
  rewrite absolute_of_relative by done. simpl.
  by rewrite drop_app_length' by (by rewrite length_replicate).
Qed.
End PathComposition.

(** * Splitting and joining on the separator *)

Section SplitJoin.
Implicit Types (s t x : string) (l : list string).

Local Abbreviation chars := list_ascii_of_string.
Local Opaque Ascii.ascii_dec.

Lemma append_nil_l s : "" +:+ s = s.
Proof. reflexivity. Qed.

Lemma append_cons a s t : String a s +:+ t = String a (s +:+ t).
Proof. reflexivity. Qed.

Lemma split_cons a s :
  Py.split (String a s) "/"
  = if Ascii.ascii_dec "/" a then "" :: Py.split s "/"
    else match Py.split s "/" with
         | [] => [String a ""]
         | w :: ws => String a w :: ws
         end.
Proof.
  unfold Py.split. simpl.
  destruct (Ascii.ascii_dec "/" a); [by destruct s | done].
Qed.

Lemma split_not_nil s : Py.split s "/" ≠ [].
Proof.
  destruct s as [|a s]; [done|]. rewrite split_cons.
  destruct (Ascii.ascii_dec "/" a); [done|].
  by destruct (Py.split s "/").
Qed.

(** No piece of a split holds the separator. *)
Lemma split_sep_free s :
  Forall (fun w => OsPath.sep ∉ chars w) (Py.split s "/").
Proof.
  induction s as [|a s IH].
  - apply Forall_singleton. apply not_elem_of_nil.
  - rewrite split_cons. destruct (Ascii.ascii_dec "/" a) as [?|Hne].
    + apply Forall_cons. split; [apply not_elem_of_nil | done].
    + destruct (Py.split s "/") as [|w ws].
      * apply Forall_singleton. simpl.
        intros [?|[]%not_elem_of_nil]%elem_of_cons. by apply Hne.
      * apply Forall_cons in IH as [Hw Hws]. apply Forall_cons.
        split; [|done]. simpl.
        intros [?|?]%elem_of_cons; [by apply Hne | done].
Qed.

Lemma split_word x : OsPath.sep ∉ chars x → Py.split x "/" = [x].
Proof.
  induction x as [|a x IH]; [done|]. simpl. intros Hfree.
  rewrite split_cons. destruct (Ascii.ascii_dec "/" a) as [<-|_].
  - destruct Hfree. apply list_elem_of_here.
  - rewrite IH; [done|]. intros ?. apply Hfree. by apply list_elem_of_further.
Qed.

Lemma split_word_sep x t :
  OsPath.sep ∉ chars x →
  Py.split (x +:+ "/" +:+ t) "/" = x :: Py.split t "/".
Proof.
  induction x as [|a x IH]; intros Hfree; simpl in Hfree.
  - rewrite append_nil_l, append_cons, append_nil_l, split_cons.
    by destruct (Ascii.ascii_dec "/" "/").
  - rewrite append_cons, split_cons.
    destruct (Ascii.ascii_dec "/" a) as [<-|_].
    + destruct Hfree. apply list_elem_of_here.
    + rewrite IH; [done|].
      intros ?. apply Hfree. by apply list_elem_of_further.
Qed.

(** Splitting what [join] made of separator-free pieces gives the pieces
    back. *)
Lemma split_join l :
  Forall (fun w => OsPath.sep ∉ chars w) l → l ≠ [] →
  Py.split (Py.join "/" l) "/" = l.
Proof.
  induction l as [|x l IH]; [done|]. intros [Hx Hl]%Forall_cons _.
  destruct l as [|y l]; simpl.
  - by apply split_word.
  - rewrite split_word_sep by done. f_equal. by apply IH.
Qed.

Lemma join_starts_clean x l :
  clean x → Py.startswith (Py.join "/" (x :: l)) "/" = false.
Proof.
  intros [Hne Hfree]. destruct x as [|a x]; [done|].
  assert (a ≠ "/"%char) as Ha.
  { intros ->. apply Hfree. apply list_elem_of_here. }
  unfold Py.startswith.
  destruct l; simpl; rewrite ?append_cons; simpl;
    by destruct (Ascii.ascii_dec "/" a) as [<-|_].
Qed.

Local Transparent Ascii.ascii_dec.
End SplitJoin.

Section ParseRender.
Implicit Types (p : FSPath) (l : list string).

Lemma foldl_normalize_ordinary absolute l : ∀ pe n,
  Forall (fun e => e ≠ "" ∧ e ≠ curdir ∧ e ≠ pardir) l →
  foldl (normalize_step absolute) (pe, n) l = (pe ++ l, n).
Proof.
  induction l as [|e l IH]; intros pe n Hl; simpl.
  - by rewrite app_nil_r.
  - apply Forall_cons in Hl as [(He & Hc & Hp) Hl].
    rewrite !bool_decide_eq_false_2 by done. simpl.
    rewrite IH by done. by rewrite <-app_assoc.
Qed.

Lemma foldl_normalize_markers k : ∀ j,
  foldl (normalize_step false) (replicate j pardir, Z.of_nat j)
    (replicate k pardir)
  = (replicate (j + k) pardir, Z.of_nat (j + k)).
Proof.
  induction k as [|k IH]; intros j; simpl.
  - by rewrite Nat.add_0_r.
  - assert (match last (replicate j pardir) with
            | Some e => bool_decide (e ≠ pardir)
            | None => false
            end = false) as ->.
    { destruct j as [|j]; [done|].
      rewrite replicate_S_end, last_snoc.
      by apply bool_decide_eq_false_2; intros []. }
    rewrite <-replicate_S_end.
    replace (Z.of_nat j + 1) with (Z.of_nat (S j)) by lia.
    rewrite IH. do 2 f_equal; lia.
Qed.

Lemma startswith_root_cons x : Py.startswith (String "/" x) root = true.
Proof.
  unfold Py.startswith, root. simpl.
  destruct (Ascii.ascii_dec "/" "/"); [by destruct x | done].
Qed.

(** X9: parsing the string form of a path gives the path back, for
    every path that satisfies the invariant and whose elements are
    clean. *)
Theorem str_parse_roundtrip p :
  invariant p → Forall clean (elems p) →
  FSPath_new (AStr (FSPath_str p)) None 0 false = p.
Proof.
  destruct p as [el ab n].
  intros (Hzero & Hn & Hcur & Hmarkers & Hpar) Hclean. simpl in *.
  assert (Forall (fun w => OsPath.sep ∉ list_ascii_of_string w) el) as Hfree.
  { eapply Forall_impl; [exact Hclean|]. by intros w [_ ?]. }
  assert (∀ e, e ∈ drop (Z.to_nat n) el →
               e ≠ "" ∧ e ≠ curdir ∧ e ≠ pardir) as Hordinary.
  { intros e He. assert (e ∈ el) as He' by (by eapply elem_of_drop_inv).
    rewrite Forall_forall in Hclean. destruct (Hclean e He') as [? _].
    repeat split; [done|by intros ->..]. }
  unfold FSPath_str. cbn [_absolute elems]. destruct ab; cbn [negb andb].
  - (* absolute *)
    rewrite (Hzero eq_refl) in *. simpl in Hordinary.
    replace (root +:+ Py.join sep el) with (String "/" (Py.join sep el))
      by reflexivity.
    unfold FSPath_new. rewrite startswith_root_cons.
    unfold sep at 2. rewrite split_cons.
    destruct (Ascii.ascii_dec "/" "/") as [_|?]; [|done].
    destruct el as [|x el]; [done|].
    unfold sep. rewrite split_join by done.
    change (foldl (normalize_step true) ([], 0) ("" :: x :: el))
      with (foldl (normalize_step true) ([], 0) (x :: el)).
    rewrite foldl_normalize_ordinary; [done|].
    apply Forall_forall. intros e He. apply Hordinary. by rewrite drop_0.
  - (* relative *)
    destruct el as [|x el].
    + simpl. apply (f_equal length) in Hmarkers.
      rewrite length_replicate, take_nil in Hmarkers. simpl in Hmarkers.
      f_equal. lia.
    + apply Forall_cons in Hclean as Hclean'. destruct Hclean' as [Hx _].
      assert (bool_decide (x :: el = []) = false) as -> by done.
      rewrite append_nil_l. unfold FSPath_new, sep, root.
      rewrite (join_starts_clean x el Hx), split_join by done.
      rewrite <-(take_drop (Z.to_nat n) (x :: el)), Hmarkers.
      rewrite foldl_app.
      change ([], 0) with (replicate 0 pardir, Z.of_nat 0).
      rewrite (foldl_normalize_markers (Z.to_nat n) 0). simpl.
      rewrite foldl_normalize_ordinary by (by apply Forall_forall).
      by rewrite Z2Nat.id.
Qed.

(** What the normalisation loop leaves in [path_elems] is clean when
    what it started from is. *)
Lemma normalize_step_clean absolute pe n elem :
  OsPath.sep ∉ list_ascii_of_string elem →
  Forall clean pe → Forall clean (normalize_step absolute (pe, n) elem).1.
Proof.
  intros Hfree Hpe. unfold normalize_step.
  destruct (bool_decide (elem = "") || bool_decide (elem = curdir)) eqn:Hskip;
    [done|].
  apply orb_false_elim in Hskip as [Hne%bool_decide_eq_false _].
  case_bool_decide.
  - destruct (absolute || _); simpl.
    + apply Forall_forall. intros e He%elem_of_removelast.
      by rewrite Forall_forall in Hpe; apply Hpe.
    + apply Forall_app. split; [done|]. apply Forall_singleton.
      split; [done|]. subst elem. done.
  - simpl. apply Forall_app. split; [done|]. by apply Forall_singleton.
Qed.

Lemma foldl_normalize_clean absolute l : ∀ st,
  Forall (fun w => OsPath.sep ∉ list_ascii_of_string w) l →
  Forall clean st.1 → Forall clean (foldl (normalize_step absolute) st l).1.
Proof.
  induction l as [|e l IH]; intros [pe n] Hl Hst; simpl; [done|].
  apply Forall_cons in Hl as [He Hl]. apply IH; [done|].
  by apply normalize_step_clean.
Qed.

(** The elements of a parsed path are not empty and hold no separator. *)
Lemma parse_clean s parents absolute :
  Forall clean (elems (FSPath_new (AStr s) None parents absolute)).
Proof.
  unfold FSPath_new.
  pose proof (split_sep_free s) as Hfree.
  destruct (Py.startswith s root).
  - pose proof (foldl_normalize_clean true (Py.split s sep) ([], 0) Hfree
                  (Forall_nil_2 _)) as Hclean.
    by destruct (foldl _ _ _).
  - pose proof (foldl_normalize_clean false (Py.split s sep) ([], 0) Hfree
                  (Forall_nil_2 _)) as Hclean.
    by destruct (foldl _ _ _).
Qed.

(** X1: a path built from a string satisfies the invariant, whether the
    string is parsed on its own or against a reference path that is
    absolute and satisfies the invariant. *)
Theorem string_construction_invariant s (relative : option FSPath)
    parents absolute :
  (∀ reference, relative = Some reference →
                invariant reference ∧ _absolute reference = true) →
  invariant (FSPath_new (AStr s) relative parents absolute).
Proof.
  intros Href. destruct relative as [reference|].
  - destruct (Href reference eq_refl). by apply parse_against_invariant.
  - apply parse_invariant.
Qed.

(** X2: the elements of a path built from a string are not empty and
    hold no separator, when those of the reference path, if one is given,
    are so. *)
Theorem string_construction_clean s (relative : option FSPath)
    parents absolute :
  (∀ reference, relative = Some reference → Forall clean (elems reference)) →
  Forall clean (elems (FSPath_new (AStr s) relative parents absolute)).
Proof.
  intros Href. destruct relative as [reference|]; [|apply parse_clean].
  unfold FSPath_new.
  pose proof (split_sep_free s) as Hfree.
  destruct (Py.startswith s root).
  - pose proof (foldl_normalize_clean true (Py.split s sep) ([], 0) Hfree
                  (Forall_nil_2 _)) as Hclean.
    by destruct (foldl _ _ _).
  - pose proof (foldl_normalize_clean true (Py.split s sep)
                  (elems reference, 0) Hfree (Href reference eq_refl))
      as Hclean.
    by destruct (foldl _ _ _).
Qed.
End ParseRender.

(** * System paths *)

Section SystemPaths.
Implicit Types (a b s t x : string) (l : list string) (p : FSPath).

Local Abbreviation chars := list_ascii_of_string.
Local Opaque Ascii.ascii_dec.

Lemma append_assoc_str s t x : (s +:+ t) +:+ x = s +:+ t +:+ x.
Proof.
  induction s as [|c s IH]; [by rewrite !append_nil_l|].
  by rewrite !append_cons, IH.
Qed.

Lemma chars_append s t : chars (s +:+ t) = chars s ++ chars t.
Proof.
  induction s as [|c s IH]; [by rewrite append_nil_l|].
  rewrite append_cons. simpl. by rewrite IH.
Qed.

Lemma prefix_append a x : String.prefix a (a +:+ x) = true.
Proof.
  induction a as [|c a IH]; [by destruct ("" +:+ x)|].
  rewrite append_cons. simpl. by destruct (Ascii.ascii_dec c c).
Qed.

Lemma append_nil_r s : s +:+ "" = s.
Proof.
  induction s as [|c s IH]; [done|]. by rewrite append_cons, IH.
Qed.

Lemma clean_starts x : clean x → Py.startswith x "/" = false.
Proof. intros Hx. apply (join_starts_clean x [] Hx). Qed.

(** What ends with a clean element does not end with the separator. *)
Lemma clean_ends s x : clean x → Py.endswith (s +:+ x) "/" = false.
Proof.
  intros [Hne Hfree]. unfold Py.endswith. rewrite chars_append, reverse_app.
  destruct (chars x) as [|c cs _] eqn:Hx using rev_ind.
  { destruct x; done. }
  rewrite reverse_snoc. simpl.
  destruct (Ascii.ascii_dec "/" c) as [<-|_]; [|done].
  destruct Hfree. apply elem_of_app. right. apply list_elem_of_here.
Qed.

Lemma clean_not_empty s x : clean x → s +:+ x ≠ "".
Proof.
  intros [Hne _]. destruct s; [by rewrite append_nil_l | done].
Qed.

(** [join] with a clean second argument only appends. *)
Lemma join_clean a x :
  clean x →
  OsPath.join a x
  = a +:+ (if bool_decide (a = "") || Py.endswith a "/" then "" else "/")
    +:+ x.
Proof.
  intros Hx. unfold OsPath.join.
  change (String OsPath.sep "") with "/". rewrite (clean_starts x Hx).
  by destruct (bool_decide (a = "") || Py.endswith a "/").
Qed.

Lemma join_clean_again a x t :
  clean x → Py.startswith t "/" = false →
  OsPath.join (OsPath.join a x) t = OsPath.join a (x +:+ "/" +:+ t).
Proof.
  intros Hx Ht.
  assert (Py.startswith (x +:+ "/" +:+ t) "/" = false) as Hxt.
  { destruct Hx as [Hne Hfree]. destruct x as [|c x]; [done|].
    rewrite append_cons. unfold Py.startswith. simpl.
    destruct (Ascii.ascii_dec "/" c) as [<-|_]; [|done].
    destruct Hfree. apply list_elem_of_here. }
  rewrite (join_clean a x Hx). unfold OsPath.join.
  change (String OsPath.sep "") with "/". rewrite Ht, Hxt.
  rewrite <-append_assoc_str, (clean_ends _ x Hx).
  rewrite bool_decide_eq_false_2 by (by apply clean_not_empty).
  simpl. destruct (bool_decide (a = "") || Py.endswith a "/");
    by rewrite !append_assoc_str.
Qed.

(** Joining clean elements one after the other is joining their
    rendering once. *)
Lemma joins_clean l : ∀ a x,
  Forall clean (x :: l) →
  OsPath.joins a (x :: l) = OsPath.join a (Py.join "/" (x :: l)).
Proof.
  induction l as [|y l IH]; intros a x [Hx Hl]%Forall_cons; [done|].
  change (OsPath.joins a (x :: y :: l))
    with (OsPath.joins (OsPath.join a x) (y :: l)).
  rewrite IH by done.
  apply Forall_cons in Hl as Hl'. destruct Hl' as [Hy _].
  by rewrite join_clean_again by (done || by apply join_starts_clean).
Qed.

Lemma join_clean_first x t :
  clean x → Py.startswith t "/" = false →
  OsPath.join x t = x +:+ "/" +:+ t.
Proof.
  intros Hx Ht. unfold OsPath.join.
  change (String OsPath.sep "") with "/". rewrite Ht.
  destruct Hx as [Hne Hfree].
  rewrite bool_decide_eq_false_2 by done.
  rewrite <-(append_nil_l x) at 1. by rewrite (clean_ends "" x).
Qed.

(** X10: the system path of an absolute tree path with clean elements
    starts with the file system root: it is the root itself for the root
    path, and otherwise the root joined with the rendering of the
    elements. *)
Theorem get_system_path_absolute p fs_root :
  _absolute p = true → Forall clean (elems p) →
  ∃ r, get_system_path p fs_root = Some r
       ∧ String.prefix fs_root r = true
       ∧ r = if bool_decide (elems p = []) then fs_root
             else OsPath.join fs_root (Py.join Path.sep (elems p)).
Proof.
  intros Habs Hclean. unfold get_system_path. rewrite Habs.
  destruct (elems p) as [|x l] eqn:Hel.
  - exists fs_root. split; [done|]. split; [|done].
    rewrite <-(append_nil_r fs_root) at 2. apply prefix_append.
  - eexists. split; [done|].
    rewrite joins_clean by done. split; [|done].
    unfold OsPath.join. change (String OsPath.sep "") with "/".
    apply Forall_cons in Hclean as [Hx _].
    rewrite (join_starts_clean x l Hx).
    destruct (bool_decide (fs_root = "") || Py.endswith fs_root "/");
      apply prefix_append.
Qed.

(** X11: the system path of a relative tree path with clean elements is
    its own rendering, whatever the file system root; the empty relative
    path has none ([os.path.join] is called without argument). *)
Theorem get_system_path_relative p fs_root :
  _absolute p = false → Forall clean (elems p) →
  get_system_path p fs_root
  = if bool_decide (elems p = []) then None else Some (FSPath_str p).
Proof.
  intros Hrel Hclean. unfold get_system_path, FSPath_str. rewrite Hrel.
  destruct (elems p) as [|x l] eqn:Hel; [done|].
  rewrite bool_decide_eq_false_2 by done. simpl.
  rewrite append_nil_l. f_equal.
  apply Forall_cons in Hclean as [Hx Hl].
  destruct l as [|y l]; [done|].
  rewrite joins_clean by done.
  apply Forall_cons in Hl as Hl'. destruct Hl' as [Hy _].
  by rewrite join_clean_first by (done || by apply join_starts_clean).
Qed.

Local Transparent Ascii.ascii_dec.
End SystemPaths.


(** * More on the compression registry and the tar file name parser *)

Section RegistryFacts.
Implicit Types (cls : registry) (obj : Compression).

Lemma foldl_insert_lookup (entries : list (string * ext_info)) :
  ∀ (m : gmap string ext_info) e,
    (e ∉ entries.*1 →
     foldl (fun m kv => <[ kv.1 := kv.2 ]> m) m entries !! e = m !! e)
    ∧ (e ∈ entries.*1 →
       ∃ d, foldl (fun m kv => <[ kv.1 := kv.2 ]> m) m entries !! e = Some d
            ∧ (e, d) ∈ entries).
Proof.
  induction entries as [|[k v] entries IH] using rev_ind; intros m e.
  { split; [done|]. by intros ?%not_elem_of_nil. }
  rewrite foldl_app, fmap_app. simpl.
  destruct (decide (k = e)) as [->|Hne].
  - rewrite lookup_insert_eq. split.
    + intros Hnot. destruct Hnot. apply elem_of_app. right.
      apply list_elem_of_here.
    + intros _. exists v. split; [done|]. apply elem_of_app. right.
      apply list_elem_of_here.
  - rewrite lookup_insert_ne by done. destruct (IH m e) as [IH1 IH2]. split.
    + intros Hnot. apply IH1. intros ?. apply Hnot. apply elem_of_app. auto.
    + intros [Hin|Hin%list_elem_of_singleton]%elem_of_app; [|done].
      destruct (IH2 Hin) as (d & Hd & Hmem). exists d. split; [done|].
      apply elem_of_app. auto.
Qed.

Lemma imap_keys {B} (f : nat → string → B) (l : list string) :
  (imap (fun i ext => (ext, f i ext)) l).*1 = l.
Proof.
  rewrite fmap_imap. rewrite (imap_ext _ (fun _ x => x)) by done.
  induction l as [|x l IH]; [done|]. simpl. f_equal.
  rewrite <-IH at 2. by apply imap_ext.
Qed.

(** What a declaration that succeeds found: a new name, at least one
    extension, and no extension declared before. *)
Lemma Compression_new_fresh cls n sup exts r :
  Compression_new cls n sup exts = Ok r →
  lookup_compression cls n = None ∧ exts ≠ []
  ∧ ∀ e, e ∈ exts → _extensions cls !! e = None.
Proof.
  unfold Compression_new, lookup_compression.
  case_bool_decide as Hname; [done|].
  apply eq_None_not_Some in Hname.
  destruct exts as [|first rest]; [done|].
  case_bool_decide as Hcoll; [|done]. intros _.
  split; [done|]. split; [done|].
  intros e He. apply eq_None_not_Some. intros Hsome.
  by apply (filter_nil_not_elem_of _ _ e Hcoll Hsome).
Qed.

(** X12: a declaration succeeds exactly when the name is new, at least
    one extension is given, and no extension is already declared. *)
Theorem Compression_new_succeeds_iff cls n sup exts :
  (∃ r, Compression_new cls n sup exts = Ok r)
  ↔ lookup_compression cls n = None ∧ exts ≠ []
    ∧ ∀ e, e ∈ exts → _extensions cls !! e = None.
Proof.
  unfold Compression_new, lookup_compression.
  case_bool_decide as Hname.
  { split; [by intros [? ?]|]. intros (Hnone & _). rewrite Hnone in Hname.
    by destruct Hname. }
  apply eq_None_not_Some in Hname.
  destruct exts as [|first rest].
  { split; [by intros [? ?]|]. by intros (_ & ? & _). }
  case_bool_decide as Hcoll; simpl.
  - split; [|eauto]. intros _. split; [done|]. split; [done|].
    intros e He. apply eq_None_not_Some. intros Hsome.
    by apply (filter_nil_not_elem_of _ _ e Hcoll Hsome).
  - split; [by intros [? ?]|]. intros (_ & _ & Hfresh). destruct Hcoll.
    destruct (filter _ _) as [|x l] eqn:Hfilter; [done|].
    assert (x ∈ filter (fun ext => is_Some (_extensions cls !! ext))
                  (first :: rest)) as [Hsome Hin]%list_elem_of_filter
      by (rewrite Hfilter; apply list_elem_of_here).
    rewrite (Hfresh x Hin) in Hsome. by destruct Hsome.
Qed.

(** The registry of names after a successful declaration. *)
Lemma Compression_new_names cls n sup exts obj cls' :
  Compression_new cls n sup exts = Ok (obj, cls') →
  name obj = n ∧ supported obj = sup
  ∧ extension obj = "." +:+ default "" (head exts)
  ∧ lookup_compression cls' n = Some obj
  ∧ (∀ m, m ≠ n → lookup_compression cls' m = lookup_compression cls m).
Proof.
  intros Hnew.
  unfold Compression_new in Hnew.
  case_bool_decide; [done|]. destruct exts as [|first rest]; [done|].
  case_bool_decide; [|done]. simpl in Hnew. injection Hnew as <- <-.
  unfold lookup_compression. simpl.
  split; [done|]. split; [done|]. split; [done|].
  split; [apply lookup_insert_eq|].
  by intros m Hm; rewrite lookup_insert_ne.
Qed.

(** The registry of extensions after a successful declaration. *)
Lemma Compression_new_extensions cls n sup exts obj cls' :
  Compression_new cls n sup exts = Ok (obj, cls') →
  (∀ e, e ∈ exts →
        ∃ d, _extensions cls' !! e = Some d ∧ compression d = Some obj)
  ∧ (∀ e, e ∉ exts → _extensions cls' !! e = _extensions cls !! e).
Proof.
  intros Hnew.
  unfold Compression_new in Hnew.
  case_bool_decide; [done|]. destruct exts as [|first rest]; [done|].
  case_bool_decide; [|done]. simpl in Hnew. injection Hnew as <- <-.
  simpl.
  set (obj := mkCompression n sup ("." +:+ first)).
  set (f := fun (i : nat) (ext : string) =>
              if bool_decide (i = O) then mkExtInfo (Some obj) None
              else mkExtInfo (Some obj) (Some true)).
  pose proof (foldl_insert_lookup
                (imap (fun i ext => (ext, f i ext)) (first :: rest))
                (_extensions cls)) as Hlookup.
  rewrite imap_keys in Hlookup. split.
  - intros e He. destruct (Hlookup e) as [_ Hin].
    destruct (Hin He) as (d & Hd & Hmem). exists d. split; [exact Hd|].
    apply elem_of_lookup_imap_1 in Hmem as (i & y & [= _ ->] & _).
    unfold f. by destruct (bool_decide (i = O)).
  - intros e He. by destruct (Hlookup e) as [Hout _]; apply Hout.
Qed.

(** X13: what a successful declaration does: it files the new descriptor
    under its name and under each of its extensions, and leaves every
    other entry of the two registries as it was. *)
Theorem Compression_new_registers cls n sup exts obj cls' :
  Compression_new cls n sup exts = Ok (obj, cls') →
  name obj = n ∧ supported obj = sup
  ∧ extension obj = "." +:+ default "" (head exts)
  ∧ lookup_compression cls' n = Some obj
  ∧ (∀ m, m ≠ n → lookup_compression cls' m = lookup_compression cls m)
  ∧ (∀ e, e ∈ exts →
          ∃ d, _extensions cls' !! e = Some d ∧ compression d = Some obj)
  ∧ (∀ e, e ∉ exts → _extensions cls' !! e = _extensions cls !! e).
Proof.
  intros Hnew.
  destruct (Compression_new_names _ _ _ _ _ _ Hnew) as (? & ? & ? & ? & ?).
  destruct (Compression_new_extensions _ _ _ _ _ _ Hnew) as [? ?].
  done.
Qed.

Lemma str_slice_from_1 c s : Py.str_slice_from (String c s) 1 = s.
Proof.
  unfold Py.str_slice_from. rewrite slice_from_nonneg by lia.
  change (Z.to_nat 1) with 1%nat. simpl. rewrite ?drop_0.
  apply string_of_list_ascii_of_string.
Qed.

(** A successful declaration keeps the registries consistent. *)
Lemma Compression_new_consistent cls n sup exts obj cls' :
  consistent cls →
  Compression_new cls n sup exts = Ok (obj, cls') →
  consistent cls'.
Proof.
  intros (Hnames & Hexts & Hkinds) Hnew.
  destruct (Compression_new_fresh _ _ _ _ _ Hnew)
    as (Hfresh & Hne & Hnew_exts).
  destruct (Compression_new_names _ _ _ _ _ _ Hnew)
    as (Hname & _ & Hext & Hobj & Hothers).
  destruct (Compression_new_extensions _ _ _ _ _ _ Hnew) as [Hin Hout].
  unfold lookup_compression in *.
  destruct exts as [|first rest]; [done|]. simpl in Hext.
  assert (∀ e d, _extensions cls !! e = Some d →
                 _extensions cls' !! e = Some d) as Hkeep.
  { intros e d He. rewrite Hout; [done|]. intros Hmem.
    by rewrite (Hnew_exts e Hmem) in He. }
  split; [|split].
  - intros m c Hc. destruct (decide (m = n)) as [->|Hm].
    + rewrite Hobj in Hc. injection Hc as <-. split; [done|].
      unfold lookup_extension. rewrite Hext.
      change ("." +:+ first) with (String "." first).
      rewrite str_slice_from_1. apply Hin, list_elem_of_here.
    + rewrite Hothers in Hc by done.
      destruct (Hnames m c Hc) as [Hcn (d & Hd & Hdc)]. split; [done|].
      exists d. split; [|done]. unfold lookup_extension in *. by apply Hkeep.
  - intros e d c He Hc. destruct (decide (e ∈ first :: rest)) as [Hmem|Hmem].
    + destruct (Hin e Hmem) as (d' & Hd' & Hc').
      rewrite He in Hd'. injection Hd' as <-.
      rewrite Hc in Hc'. injection Hc' as ->. by rewrite Hname.
    + rewrite Hout in He by done.
      pose proof (Hexts e d c He Hc) as Hdeclared.
      rewrite Hothers; [done|]. intros Heq.
      rewrite Heq, Hfresh in Hdeclared. done.
  - intros e d He. destruct (decide (e ∈ first :: rest)) as [Hmem|Hmem].
    + destruct (Hin e Hmem) as (d' & Hd' & Hc').
      rewrite He in Hd'. injection Hd' as <-. left. by rewrite Hc'.
    + rewrite Hout in He by done. by apply (Hkinds e d).
Qed.

Lemma initial_consistent : consistent initial.
Proof.
  unfold consistent, initial. simpl. split; [|split].
  - intros n c Hc. by rewrite lookup_empty in Hc.
  - intros e d c [<- <-]%lookup_singleton_Some. done.
  - intros e d [<- <-]%lookup_singleton_Some. by right.
Qed.

Lemma declare_consistent ds : ∀ cls cls',
  consistent cls → foldl declare (Ok cls) ds = Ok cls' → consistent cls'.
Proof.
  induction ds as [|[[n sup] exts] ds IH]; intros cls cls' Hcls; simpl.
  { by intros [= <-]. }
  unfold declare at 1. unfold mbind, result_bind. simpl.
  destruct (Compression_new cls n sup exts) as [[obj cls1]|e] eqn:Hnew; simpl.
  - apply IH. by eapply Compression_new_consistent.
  - assert (∀ ds', foldl declare (Raise e) ds' = Raise e) as ->; [|done].
    induction ds' as [|d ds' IH']; [done|]. simpl. apply IH'.
Qed.

(** The registries the module declares are consistent. *)
Lemma loaded_consistent PY3 : consistent (loaded PY3).
Proof.
  apply (declare_consistent (declarations PY3) initial);
    [apply initial_consistent | apply import_module_ok].
Qed.
End RegistryFacts.

Section ParsedNames.
Variable cls : registry.
Implicit Types (t : TarFileName) (st : parser_state) (x : list string).

Lemma next_data_lookup ext data :
  next_data cls ext = Some data → lookup_extension cls ext = Some data.
Proof.
  unfold next_data. case_bool_decide; [done|].
  destruct (lookup_extension cls ext) as [[[c|] [b|]]|]; done.
Qed.

Lemma update_shape x st ext data :
  state_has_tar_ext st = false →
  next_data cls ext = Some data →
  sanity_checks st data = Ok tt →
  loop_shape cls x st → loop_shape cls (ext :: x) (update st data).
Proof.
  intros Hnotar Hdata%next_data_lookup Hcheck [_ Hcomp].
  unfold loop_shape, update. simpl. split.
  - destruct (has_tar_ext data) as [b|] eqn:Htar; [|congruence].
    intros ->. by exists ext, x, data.
  - unfold sanity_checks in Hcheck.
    destruct (compression data) as [c|] eqn:Hc.
    + right. exists c. split; [done|].
      destruct (state_compression st) as [|[| |c0]]; [|done..|].
      * destruct (supported c); [|done]. split; [done|].
        exists ext, data. split; [apply list_elem_of_here | done].
      * by destruct (same c0 c).
    + destruct Hcomp as [?|(c & ? & ? & e & d & ? & ? & ?)]; [by left|].
      right. exists c. split; [done|]. split; [done|].
      exists e, d. split; [by apply list_elem_of_further | done].
Qed.

Lemma parse_loop_shape fuel : ∀ basename x st b' x' st',
  loop_shape cls x st →
  parse_loop cls fuel basename x st = Some (Ok (b', x', st')) →
  loop_shape cls x' st'.
Proof.
  induction fuel as [|fuel IH]; intros basename x st b' x' st' Hshape;
    simpl; [done|].
  destruct (state_has_tar_ext st) eqn:Htar; [by intros [= <- <- <-]|].
  destruct (OsPath.splitext basename) as [root ext].
  destruct (next_data cls ext) as [data|] eqn:Hdata;
    [|by intros [= <- <- <-]].
  destruct (sanity_checks st data) as [[]|e] eqn:Hcheck; [|done].
  apply IH. by apply update_shape.
Qed.

(** X15: a parsed name always has extensions, the first of which is an
    archive suffix (['.tar'] itself, or a registered extension flagged as
    one); its compression, when it has one, is a supported descriptor
    that one of its extensions looks up to. *)
Theorem parsed_name_shape filename t :
  TarFileName_init cls filename = Some (Ok t) →
  (∃ e rest, extensions t = e :: rest
             ∧ (e = ".tar"
                ∨ ∃ d, lookup_extension cls e = Some d
                       ∧ has_tar_ext d = Some true))
  ∧ (_compression t = unset ∧ get_compression t = VNone
     ∨ ∃ c, _compression t = Held (VComp c) ∧ supported c = true
            ∧ ∃ e d, e ∈ extensions t ∧ lookup_extension cls e = Some d
                     ∧ compression d = Some c).
Proof.
  unfold TarFileName_init.
  destruct (OsPath.split filename) as [dirname basename].
  destruct (parse_loop cls _ basename [] _) as [[[[b x] st]|e]|] eqn:Hloop;
    [|done..].
  assert (loop_shape cls [] (mkState unset false)) as Hinit.
  { split; [done|]. by left. }
  destruct (parse_loop_shape _ _ _ _ _ _ _ Hinit Hloop) as [Htar Hcomp].
  destruct (state_has_tar_ext st) eqn:Hflag.
  - destruct (Htar eq_refl) as (e & rest & d & -> & Hd & Hdt).
    destruct (state_compression st) as [|v] eqn:Hst;
      simpl; intros [= <-]; simpl.
    + split; [eauto 10|]. by left.
    + split; [eauto 10|]. right.
      destruct Hcomp as [?|(c & [= ->] & Hrest)]; [done|]. eauto.
  - destruct (state_compression st) as [|v] eqn:Hst; [|done].
    simpl. intros [= <-]. simpl. split; [eauto|]. by left.
Qed.
End ParsedNames.

Section RenderedNames.
Implicit Types (s t u v : string) (x : list string).

Local Abbreviation chars := list_ascii_of_string.
Local Opaque Ascii.ascii_dec.

Lemma string_of_list_app (l1 l2 : list ascii) :
  string_of_list_ascii (l1 ++ l2)
  = string_of_list_ascii l1 +:+ string_of_list_ascii l2.
Proof.
  induction l1 as [|c l1 IH]; simpl; [by rewrite append_nil_l|].
  by rewrite append_cons, IH.
Qed.

(** [p[:k] + p[k:] == p] *)
Lemma str_slice_split s k : Py.str_slice_to s k +:+ Py.str_slice_from s k = s.
Proof.
  unfold Py.str_slice_to, Py.str_slice_from, Py.slice_to, Py.slice_from.
  by rewrite <-string_of_list_app, take_drop, string_of_list_ascii_of_string.
Qed.

Lemma splitext_append s root ext :
  OsPath.splitext s = (root, ext) → root +:+ ext = s.
Proof.
  unfold OsPath.splitext.
  destruct (_ <? _); [|by intros [= <- <-]; apply append_nil_r].
  destruct (splitext_scan_cases
              (Z.to_nat (Py.rfind s OsPath.extsep
                         - (Py.rfind s OsPath.sep + 1))) s
              (Py.rfind s OsPath.sep + 1) (Py.rfind s OsPath.extsep))
    as [->| ->]; intros [= <- <-];
    [apply append_nil_r | apply str_slice_split].
Qed.

Lemma join_empty_cons s x : Py.join "" (s :: x) = s +:+ Py.join "" x.
Proof.
  destruct x as [|e x]; simpl; [by rewrite append_nil_r|].
  by rewrite append_nil_l.
Qed.

Lemma join_empty_snoc x s : Py.join "" (x ++ [s]) = Py.join "" x +:+ s.
Proof.
  induction x as [|e x IH].
  - simpl. by rewrite append_nil_l.
  - change ((e :: x) ++ [s]) with (e :: (x ++ [s])).
    by rewrite !join_empty_cons, IH, append_assoc_str.
Qed.

(** [rfind] returns the last index: the separator is not found after
    it, nor anywhere when the result is the default. *)
Lemma rfind_from_last c s : ∀ i found,
  found < i →
  (Py.rfind_from c s i found = found ∧ c ∉ chars s)
  ∨ (i ≤ Py.rfind_from c s i found
     ∧ c ∉ drop (S (Z.to_nat (Py.rfind_from c s i found - i))) (chars s)).
Proof.
  induction s as [|a s IH]; intros i found Hlt; simpl.
  { left. split; [done | apply not_elem_of_nil]. }
  destruct (IH (i + 1) (if Ascii.eqb a c then i else found))
    as [[Hr Hfree]|[Hle Hfree]].
  - destruct (Ascii.eqb a c); lia.
  - rewrite Hr. destruct (Ascii.eqb_spec a c) as [->|Hne].
    + right. split; [lia|]. rewrite Z.sub_diag.
      change (Z.to_nat 0) with O. simpl. by rewrite ?drop_0.
    + left. split; [done|]. by apply not_elem_of_cons.
  - right. split; [lia|].
    replace (Z.to_nat (Py.rfind_from c s (i + 1)
                         (if Ascii.eqb a c then i else found) - i))
      with (S (Z.to_nat (Py.rfind_from c s (i + 1)
                           (if Ascii.eqb a c then i else found) - (i + 1))))
      by lia.
    done.
Qed.

(** The last component [posixpath.split] returns holds no separator. *)
Lemma split_tail_free s d b :
  OsPath.split s = (d, b) → OsPath.sep ∉ chars b.
Proof.
  unfold OsPath.split. intros Hsplit.
  assert (b = Py.str_slice_from s (Py.rfind s OsPath.sep + 1)) as ->
    by (by destruct (_ && _); injection Hsplit as <- <-).
  unfold Py.str_slice_from. rewrite list_ascii_of_string_of_list_ascii.
  unfold Py.rfind.
  destruct (rfind_from_last OsPath.sep s 0 (-1)) as [[-> Hfree]|[Hle Hfree]];
    [lia| |].
  - rewrite slice_from_nonneg by lia. by rewrite drop_0.
  - rewrite slice_from_nonneg by lia.
    rewrite Z.sub_0_r in Hfree.
    by replace (Z.to_nat (Py.rfind_from OsPath.sep s 0 (-1) + 1))
      with (S (Z.to_nat (Py.rfind_from OsPath.sep s 0 (-1)))) by lia.
Qed.

Lemma startswith_sep_in u : Py.startswith u "/" = true → OsPath.sep ∈ chars u.
Proof.
  destruct u as [|c u]; [done|]. unfold Py.startswith. simpl.
  destruct (Ascii.ascii_dec "/" c) as [<-|]; [|done].
  intros _. apply list_elem_of_here.
Qed.

(** What is appended to a component that holds no separator passes
    through [join]. *)
Lemma join_append d u v :
  OsPath.sep ∉ chars (u +:+ v) →
  OsPath.join d (u +:+ v) = OsPath.join d u +:+ v.
Proof.
  intros Hfree. unfold OsPath.join.
  change (String OsPath.sep "") with "/".
  destruct (Py.startswith (u +:+ v) "/") eqn:Huv.
  { by apply startswith_sep_in in Huv. }
  destruct (Py.startswith u "/") eqn:Hu.
  { apply startswith_sep_in in Hu. destruct Hfree.
    rewrite chars_append. apply elem_of_app. by left. }
  destruct (_ || _); by rewrite !append_assoc_str.
Qed.

Local Transparent Ascii.ascii_dec.
End RenderedNames.

Section RenderedParse.
Variable cls : registry.
Implicit Types (t : TarFileName) (st : parser_state) (x : list string).

(** The loop only moves characters from the end of [basename] to the
    front of [extensions]. *)
Lemma parse_loop_concat fuel : ∀ basename x st b' x' st',
  parse_loop cls fuel basename x st = Some (Ok (b', x', st')) →
  b' +:+ Py.join "" x' = basename +:+ Py.join "" x.
Proof.
  induction fuel as [|fuel IH]; intros basename x st b' x' st'; simpl;
    [done|].
  destruct (state_has_tar_ext st); [by intros [= <- <- <-]|].
  destruct (OsPath.splitext basename) as [root ext] eqn:Hsplit.
  destruct (next_data cls ext) as [data|]; [|by intros [= <- <- <-]].
  destruct (sanity_checks st data) as [[]|e]; [|done].
  intros Hloop%IH. rewrite Hloop, join_empty_cons, <-append_assoc_str.
  by rewrite (splitext_append _ _ _ Hsplit).
Qed.

(** The archive flag at the end of the loop tells whether an archive
    suffix was seen. *)
Lemma parse_loop_flag fuel : ∀ basename x st b' x' st',
  state_has_tar_ext st = false →
  parse_loop cls fuel basename x st = Some (Ok (b', x', st')) →
  state_has_tar_ext st'
  = existsb (fun data => bool_decide (has_tar_ext data = Some true))
      (seen cls fuel basename st).
Proof.
  induction fuel as [|fuel IH]; intros basename x st b' x' st' Hflag; simpl;
    [done|].
  rewrite Hflag.
  destruct (OsPath.splitext basename) as [root ext].
  destruct (next_data cls ext) as [data|]; [|by intros [= <- <- <-]].
  destruct (sanity_checks st data) as [[]|e]; [|done]. simpl.
  assert (state_has_tar_ext (update st data)
          = bool_decide (has_tar_ext data = Some true)) as Hdata.
  { unfold update. simpl. rewrite Hflag.
    by destruct (has_tar_ext data) as [[]|]. }
  remember (update st data) as st1 eqn:Hst1.
  destruct (state_has_tar_ext st1) eqn:Hup.
  - destruct fuel as [|fuel]; [done|]. simpl. rewrite Hup.
    intros [= <- <- <-]. by rewrite Hup, <-Hdata.
  - intros Hloop. by rewrite (IH _ _ _ _ _ _ Hup Hloop), <-Hdata.
Qed.

Lemma parse_loop_keeps_compression fuel : ∀ basename x st b' x' st' v,
  state_compression st = Held v →
  parse_loop cls fuel basename x st = Some (Ok (b', x', st')) →
  ∃ v', state_compression st' = Held v'.
Proof.
  induction fuel as [|fuel IH]; intros basename x st b' x' st' v Hheld; simpl;
    [done|].
  destruct (state_has_tar_ext st); [by intros [= <- <- <-]; eauto|].
  destruct (OsPath.splitext basename) as [root ext].
  destruct (next_data cls ext) as [data|]; [|by intros [= <- <- <-]; eauto].
  destruct (sanity_checks st data) as [[]|e]; [|done].
  assert (∃ v1, state_compression (update st data) = Held v1) as [v1 Hv1].
  { unfold update. simpl. destruct (compression data); eauto. }
  by apply (IH _ _ _ _ _ _ v1).
Qed.

(** With consistent registries, a loop that ends with neither archive
    suffix nor compression has consumed nothing. *)
Lemma parse_loop_quiet fuel : ∀ basename x st b' x' st',
  consistent cls →
  state_has_tar_ext st = false →
  parse_loop cls fuel basename x st = Some (Ok (b', x', st')) →
  state_has_tar_ext st' = false → state_compression st' = unset →
  b' = basename ∧ x' = x.
Proof.
  intros basename x st b' x' st' (_ & _ & Hkinds) Hflag.
  destruct fuel as [|fuel]; simpl; [done|]. rewrite Hflag.
  destruct (OsPath.splitext basename) as [root ext].
  destruct (next_data cls ext) as [data|] eqn:Hdata;
    [|by intros [= <- <- <-]].
  destruct (sanity_checks st data) as [[]|e]; [|done].
  intros Hloop Hend_flag Hend_comp. exfalso.
  apply next_data_lookup in Hdata.
  assert ((∃ v, state_compression (update st data) = Held v)
          ∨ state_has_tar_ext (update st data) = true) as Hup.
  { unfold update. simpl.
    destruct (Hkinds _ _ Hdata) as [[c Hc]|Htar]; [left|right].
    - rewrite Hc. eauto.
    - by rewrite Htar. }
  remember (update st data) as st1 eqn:Hst1. clear Hst1.
  destruct Hup as [[v Hv]|Hup].
  - destruct (parse_loop_keeps_compression _ _ _ _ _ _ _ v Hv Hloop)
      as [v' Hv']. congruence.
  - destruct fuel as [|fuel]; [done|]. simpl in Hloop. rewrite Hup in Hloop.
    injection Hloop as <- <- <-. congruence.
Qed.

(** X16: rendering a parsed name gives the file name back, its
    directory part joined again to its last component, with ['.tar']
    appended exactly when the name showed no archive suffix. *)
Theorem parse_render filename t :
  consistent cls →
  TarFileName_init cls filename = Some (Ok t) →
  TarFileName_str t
  = (let '(dirname, basename) := OsPath.split filename in
     OsPath.join dirname basename)
    +:+ (if archive_suffix_seen cls filename then "" else ".tar").
Proof.
  intros Hcls. unfold TarFileName_init, archive_suffix_seen, descriptors_seen.
  destruct (OsPath.split filename) as [dirname basename] eqn:Hsplit.
  destruct (parse_loop cls _ basename [] _) as [[[[b x] st]|e]|] eqn:Hloop;
    [|done..].
  pose proof (parse_loop_concat _ _ _ _ _ _ _ Hloop) as Hconcat.
  simpl in Hconcat. rewrite append_nil_r in Hconcat.
  rewrite <-(parse_loop_flag _ basename [] (mkState unset false) _ _ _
               eq_refl Hloop).
  pose proof (split_tail_free _ _ _ Hsplit) as Hfree.
  destruct (state_has_tar_ext st) eqn:Hflag.
  - assert (TarFileName_str (mkTarFileName (OsPath.join dirname b) x
                               (state_compression st))
            = OsPath.join dirname basename +:+ "") as Hstr.
    { unfold TarFileName_str. simpl.
      rewrite append_nil_r, <-Hconcat. symmetry. apply join_append.
      by rewrite Hconcat. }
    by destruct (state_compression st); simpl; intros [= <-].
  - destruct (state_compression st) as [|v] eqn:Hst; [|done].
    destruct (parse_loop_quiet _ basename [] (mkState unset false) _ _ _
                Hcls eq_refl Hloop Hflag Hst) as [-> ->].
    simpl. by intros [= <-].
Qed.

Lemma rfind_from_absent c s : ∀ i found,
  c ∉ list_ascii_of_string s → Py.rfind_from c s i found = found.
Proof.
  induction s as [|a s IH]; intros i found Hfree; simpl in *; [done|].
  apply not_elem_of_cons in Hfree as [Hne Hfree].
  rewrite IH by done. destruct (Ascii.eqb_spec a c); congruence.
Qed.

(** A name without directory part is what joining its two parts gives
    back. *)
Lemma split_join_plain filename :
  OsPath.sep ∉ list_ascii_of_string filename →
  (let '(dirname, basename) := OsPath.split filename in
   OsPath.join dirname basename) = filename.
Proof.
  intros Hfree.
  assert (OsPath.split filename = ("", filename)) as ->.
  { unfold OsPath.split, Py.rfind. rewrite rfind_from_absent by done.
    change (-1 + 1) with 0.
    assert (Py.str_slice_to filename 0 = "") as ->.
    { unfold Py.str_slice_to, Py.slice_to, Py.adjust. simpl.
      by rewrite Z.min_l by lia. }
    assert (Py.str_slice_from filename 0 = filename) as ->; [|done].
    unfold Py.str_slice_from. rewrite slice_from_nonneg by lia.
    rewrite drop_0. apply string_of_list_ascii_of_string. }
  unfold OsPath.join. by destruct (Py.startswith filename _).
Qed.

(** X17: a successful assignment appends the canonical extension of the
    requested scheme to the rendering, and nothing for a falsy
    request. *)
Theorem set_compression_renders t requested t' :
  set_compression cls t requested = Ok t' →
  TarFileName_str t'
  = TarFileName_str t
    +:+ (if truthy requested
         then default "" (extension <$> requested_scheme cls requested)
         else "").
Proof.
  unfold set_compression. destruct (_compression t); [|done].
  destruct (truthy requested) eqn:Htruthy.
  - assert (∀ c, requested_scheme cls requested = Some c →
                 (Ok (mkTarFileName (basename t)
                        (extensions t ++ [extension c]) (Held (VComp c)))
                  : result TarFileName) = Ok t' →
                 TarFileName_str t'
                 = TarFileName_str t +:+ extension c) as Hdone.
    { intros c _ [= <-]. unfold TarFileName_str. simpl.
      by rewrite join_empty_snoc, append_assoc_str. }
    destruct requested as [|s|c]; simpl in *; [done| |].
    + unfold mbind, result_bind, lookup_compression in *.
      destruct (_compressions cls !! s) as [c|]; simpl; [|done].
      destruct (supported c); simpl; [|done]. by apply Hdone.
    + unfold mbind, result_bind. simpl.
      destruct (supported c); simpl; [|done]. by apply Hdone.
  - intros [= <-]. unfold TarFileName_str. simpl. by rewrite append_nil_r.
Qed.

(** The slot of a parsed name is empty or holds a descriptor. *)
Lemma parsed_compression filename t :
  TarFileName_init cls filename = Some (Ok t) →
  _compression t = unset ∨ ∃ c, _compression t = Held (VComp c).
Proof.
  unfold TarFileName_init.
  destruct (OsPath.split filename) as [dirname basename].
  destruct (parse_loop cls _ basename [] _) as [[[[b x] st]|e]|] eqn:Hloop;
    [|done..].
  assert (loop_shape cls [] (mkState unset false)) as Hinit.
  { split; [done|]. by left. }
  destruct (parse_loop_shape _ _ _ _ _ _ _ _ Hinit Hloop) as [_ Hcomp].
  assert (state_compression st = unset
          ∨ ∃ c, state_compression st = Held (VComp c)) as Hslot.
  { destruct Hcomp as [?|(c & ? & _)]; eauto. }
  destruct (state_has_tar_ext st).
  - by destruct (state_compression st); intros [= <-].
  - destruct (state_compression st); [|done]. intros [= <-]. by left.
Qed.

(** X18: a freshly parsed name refuses an assignment exactly when its
    compression does not read as [None]. *)
Theorem parsed_name_settable filename t requested :
  TarFileName_init cls filename = Some (Ok t) →
  (∃ current, set_compression cls t requested = Raise (AlreadySet current))
  ↔ get_compression t ≠ VNone.
Proof.
  intros Hshape%parsed_compression. unfold set_compression, get_compression.
  destruct Hshape as [->|(c & ->)].
  - split; [|done]. intros [current Hraise]. exfalso.
    destruct (truthy requested); [|done].
    unfold mbind, result_bind in Hraise.
    destruct requested as [|s|c]; simpl in Hraise; [done| |].
    + destruct (lookup_compression cls s) as [c|]; simpl in Hraise; [|done].
      by destruct (supported c).
    + by destruct (supported c).
  - split; [done|]. eauto.
Qed.
End RenderedParse.

(** * [utils.deroot] *)

Section Deroot.
Import Utils.
Implicit Types (path root tail r : string).

Local Opaque Ascii.ascii_dec.

Lemma length_append_str s t :
  String.length (s +:+ t) = (String.length s + String.length t)%nat.
Proof.
  induction s as [|c s IH]; [by rewrite append_nil_l|].
  rewrite append_cons. simpl. by rewrite IH.
Qed.

Lemma str_slice_to_append root tail :
  Py.str_slice_to (root +:+ tail) (Z.of_nat (String.length root)) = root.
Proof.
  unfold Py.str_slice_to, Py.slice_to, Py.adjust.
  rewrite chars_append, length_app, !list_length_of_string.
  destruct (Z.ltb_spec (Z.of_nat (String.length root)) 0); [lia|].
  rewrite Z.min_l, Nat2Z.id by lia.
  rewrite take_app_length' by (by rewrite list_length_of_string).
  apply string_of_list_ascii_of_string.
Qed.

Lemma str_slice_from_append root tail :
  Py.str_slice_from (root +:+ tail) (Z.of_nat (String.length root)) = tail.
Proof.
  unfold Py.str_slice_from. rewrite slice_from_nonneg by lia.
  rewrite chars_append, Nat2Z.id.
  rewrite drop_app_length' by (by rewrite list_length_of_string).
  apply string_of_list_ascii_of_string.
Qed.

Lemma get_after_append root tail :
  String.get (String.length root) (root +:+ tail) = String.get 0 tail.
Proof. symmetry. apply (append_correct2 root tail 0). Qed.

Lemma startswith_get tail :
  Py.startswith tail "/" = true ↔ String.get 0 tail = Some "/"%char.
Proof.
  destruct tail as [|c tail]; [by split|]. unfold Py.startswith. simpl.
  destruct (Ascii.ascii_dec "/" c) as [<-|Hne].
  - split; [done|]. intros _. by destruct tail.
  - split; [done|]. by intros [= ->].
Qed.

(** X19: with a root other than ["/"], [deroot] accepts exactly the
    root itself and what continues it with a separator, and returns what
    follows the root, or ["/"] for the root itself. *)
Theorem deroot_spec path root r :
  root ≠ "/" →
  deroot path root = Ok r
  ↔ ∃ tail, path = root +:+ tail
            ∧ (tail = "" ∨ Py.startswith tail "/" = true)
            ∧ r = if bool_decide (tail = "") then "/" else tail.
Proof.
  intros Hroot. unfold deroot. rewrite bool_decide_eq_false_2 by done. simpl.
  split.
  - destruct (_ || _) eqn:Hchecks; [done|]. intros [= <-].
    apply orb_false_elim in Hchecks as [Hchecks Hnext].
    apply orb_false_elim in Hchecks as [Hlen Hprefix].
    apply negb_false_iff, bool_decide_eq_true in Hprefix.
    exists (Py.str_slice_from path (Z.of_nat (String.length root))).
    pose proof (str_slice_split path (Z.of_nat (String.length root))) as Hsplit.
    rewrite Hprefix in Hsplit. split; [done|]. split; [|done].
    destruct (Py.str_slice_from path _) as [|c tail] eqn:Htail; [by left|].
    right. apply startswith_get.
    rewrite <-(get_after_append root). rewrite Hsplit.
    apply andb_false_iff in Hnext as [Hnext|Hnext].
    + apply Z.ltb_ge in Hnext. apply (f_equal String.length) in Hsplit.
      rewrite length_append_str in Hsplit. simpl in Hsplit. lia.
    + by apply negb_false_iff, bool_decide_eq_true in Hnext.
  - intros (tail & -> & Htail & ->).
    rewrite str_slice_to_append, str_slice_from_append, length_append_str.
    rewrite bool_decide_eq_true_2 by done. simpl.
    rewrite get_after_append.
    destruct (Z.ltb_spec (Z.of_nat (String.length root + String.length tail))
                (Z.of_nat (String.length root))) as [?|_]; [lia|]. simpl.
    destruct Htail as [->|Hstart].
    + simpl. destruct (Z.ltb_spec (Z.of_nat (String.length root))
                         (Z.of_nat (String.length root + 0))); [lia|done].
    + apply startswith_get in Hstart. rewrite Hstart.
      rewrite bool_decide_eq_true_2 by done. simpl.
      by rewrite andb_false_r.
Qed.

(** With the default root nothing is checked. *)
Lemma deroot_default path : deroot path "/" = Ok path.
Proof. reflexivity. Qed.

(** X20: a root written with a trailing separator accepts none of the
    paths below it that a normalised path can spell. *)
Theorem deroot_trailing_separator base below :
  base ≠ "" → below ≠ "" → Py.startswith below "/" = false →
  deroot (base +:+ "/" +:+ below) (base +:+ "/")
  = Raise (OutsideRoot (base +:+ "/" +:+ below) (base +:+ "/")).
Proof.
  intros Hbase Hbelow Hstart.
  assert (base +:+ "/" ≠ "/") as Hroot.
  { destruct base as [|c base]; [done|]. rewrite append_cons.
    intros [= _ Hrest]. destruct base; done. }
  assert (String.get 0 below ≠ Some "/"%char) as Hget.
  { intros Hget%startswith_get. congruence. }
  rewrite <-append_assoc_str. unfold deroot.
  rewrite bool_decide_eq_false_2 by done. cbn [negb].
  rewrite str_slice_to_append, get_after_append, length_append_str.
  rewrite (bool_decide_eq_true_2 (base +:+ "/" = base +:+ "/")) by done.
  rewrite (bool_decide_eq_false_2 _ Hget). cbn [negb].
  assert (String.length below ≠ 0)%nat by (by destruct below).
  destruct (Z.ltb_spec (Z.of_nat (String.length (base +:+ "/")))
              (Z.of_nat (String.length (base +:+ "/") + String.length below)))
    as [_|?]; [|lia].
  by rewrite andb_true_r, orb_true_r.
Qed.

Local Transparent Ascii.ascii_dec.
End Deroot.

(** * [utils.RelPath] and [FSPath.relative] *)

Section RelPathFacts.
Import Utils.
Implicit Types (l pe : list string) (e x : string).

Local Opaque Ascii.ascii_dec.

(** On an absolute path, a round of [normpath] is a round of the
    normalisation loop of [FSPath]. *)
Lemma normpath_step_absolute k pe e :
  k ≠ 0 → pardir ∉ pe →
  normalize_step true (pe, 0) e = (OsPath.normpath_step k pe e, 0)
  ∧ pardir ∉ OsPath.normpath_step k pe e.
Proof.
  intros Hk Hpe. unfold normalize_step, OsPath.normpath_step.
  change curdir with ".". change pardir with ".." in *.
  destruct (bool_decide (e = "") || bool_decide (e = ".")); [done|].
  destruct (decide (e = "..")) as [->|Hne].
  - rewrite bool_decide_eq_true_2 by done.
    rewrite (bool_decide_eq_false_2 (".." ≠ "..")) by (by intros []).
    destruct (Z.eqb_spec k 0) as [?|_]; [done|]. simpl.
    assert (match last pe with
            | Some e => bool_decide (e = "..")
            | None => false
            end = false) as ->.
    { destruct (last pe) as [y|] eqn:Hlast; [|done].
      apply bool_decide_eq_false_2. intros ->.
      apply last_Some in Hlast as [l' ->]. apply Hpe.
      apply elem_of_app. right. apply list_elem_of_here. }
    unfold Py.pop_quietly.
    case_bool_decide as Hnil; simpl.
    + subst pe. done.
    + split; [done|]. by intros ?%elem_of_removelast.
  - rewrite bool_decide_eq_false_2 by done.
    rewrite (bool_decide_eq_true_2 (e ≠ "..")) by done. simpl.
    split; [done|].
    intros [?|?%list_elem_of_singleton]%elem_of_app; auto.
Qed.

Lemma normpath_fold_absolute k l : ∀ pe,
  k ≠ 0 → pardir ∉ pe →
  foldl (normalize_step true) (pe, 0) l
  = (foldl (OsPath.normpath_step k) pe l, 0).
Proof.
  induction l as [|e l IH]; intros pe Hk Hpe; cbn [foldl]; [done|].
  destruct (normpath_step_absolute k pe e Hk Hpe) as [-> Hnext].
  by apply IH.
Qed.

(** The components of a rendering of clean elements behind one or two
    separators are the elements. *)
Lemma components_rendered l :
  Forall clean l →
  components ("/" +:+ Py.join "/" l) = l
  ∧ components ("//" +:+ Py.join "/" l) = l.
Proof.
  intros Hclean.
  assert (filter (fun e => e ≠ "") (Py.split (Py.join "/" l) "/") = l) as Hl.
  { destruct l as [|x l]; [done|].
    rewrite split_join; [|by eapply Forall_impl; [exact Hclean|];
                             intros ? [_ ?] | done].
    clear -Hclean. induction Hclean as [|y l' [Hy _] _ IH]; [done|].
    by rewrite filter_cons_True, IH. }
  unfold components.
  change ("//" +:+ Py.join "/" l) with (String "/" ("/" +:+ Py.join "/" l)).
  change ("/" +:+ Py.join "/" l) with (String "/" (Py.join "/" l)).
  rewrite !split_cons.
  destruct (Ascii.ascii_dec "/" "/") as [_|?]; [|done].
  by rewrite !filter_cons_False by (by intros []).
Qed.

(** [normpath] of an absolute path renders the elements [FSPath] parses
    from it. *)
Lemma components_normpath path :
  OsPath.isabs path = true →
  components (OsPath.normpath path)
  = elems (FSPath_new (AStr path) None 0 false).
Proof.
  unfold OsPath.isabs. change (String OsPath.sep "") with "/".
  intros Habs. unfold OsPath.normpath, FSPath_new.
  change root with "/". change Path.sep with "/". rewrite Habs.
  rewrite bool_decide_eq_false_2 by (by intros ->).
  set (k := if Py.startswith path "//" && negb (Py.startswith path "///")
            then 2 else 1).
  assert (k ≠ 0) as Hk by (by subst k; destruct (_ && _)).
  rewrite (normpath_fold_absolute k) by (done || apply not_elem_of_nil).
  assert (Forall clean (foldl (OsPath.normpath_step k) [] (Py.split path "/")))
    as Hclean.
  { pose proof (foldl_normalize_clean true (Py.split path "/") ([], 0)
                  (split_sep_free path) (Forall_nil_2 _)) as H.
    by rewrite (normpath_fold_absolute k) in H
      by (done || apply not_elem_of_nil). }
  destruct (components_rendered _ Hclean) as [H1 H2].
  destruct (Z.eqb_spec k 0) as [?|_]; [done|]. simpl.
  assert (string_of_list_ascii (Py.times OsPath.sep k) = "/"
          ∨ string_of_list_ascii (Py.times OsPath.sep k) = "//") as [-> | ->]
    by (subst k; destruct (_ && _); auto).
  - rewrite bool_decide_eq_false_2 by done. done.
  - rewrite bool_decide_eq_false_2 by done. done.
Qed.

Lemma parse_absolute path :
  OsPath.isabs path = true →
  _absolute (FSPath_new (AStr path) None 0 false) = true.
Proof.
  unfold OsPath.isabs, FSPath_new. change (String OsPath.sep "") with root.
  intros ->. by destruct (foldl _ _ _).
Qed.

(** An absolute path needs neither the working directory nor the root:
    [abspath] only normalises it. *)
Lemma abspath_absolute getcwd path cwd root :
  OsPath.isabs path = true →
  abspath getcwd path cwd root = Ok (OsPath.normpath path).
Proof. intros Habs. unfold abspath. by rewrite Habs. Qed.

(** [os.path.join] of clean elements is their rendering. *)
Lemma joins_rendering x l :
  Forall clean (x :: l) → OsPath.joins x l = Py.join "/" (x :: l).
Proof.
  intros [Hx Hl]%Forall_cons. destruct l as [|y l]; [done|].
  rewrite joins_clean by done.
  apply Forall_cons in Hl as Hl'. destruct Hl' as [Hy _].
  by rewrite join_clean_first by (done || by apply join_starts_clean).
Qed.

(** Joining clean elements and then the rendering of more clean elements
    is the rendering of all of them. *)
Lemma joins_flatten l1 x l :
  Forall clean l1 → Forall clean (x :: l) →
  join_all (l1 ++ [Py.join "/" (x :: l)]) = Ok (Py.join "/" (l1 ++ x :: l)).
Proof.
  intros H1 H2. destruct l1 as [|y l1]; [done|].
  unfold join_all. cbn [app]. f_equal. unfold OsPath.joins.
  rewrite foldl_app. cbn [foldl].
  pose proof (joins_clean l (foldl OsPath.join y l1) x H2) as Hj.
  unfold OsPath.joins in Hj. rewrite <-Hj, <-foldl_app.
  apply (joins_rendering y (l1 ++ x :: l)).
  rewrite app_comm_cons. by apply Forall_app.
Qed.

Lemma rendering_not_empty x l : clean x → Py.join "/" (x :: l) ≠ "".
Proof.
  intros [Hne _]. destruct x as [|c x]; [done|].
  destruct l; [done|]. cbn [Py.join]. by rewrite append_cons.
Qed.

Lemma clean_pardir : clean pardir.
Proof.
  split; [done|]. intros Hin.
  change (list_ascii_of_string pardir) with ["."%char; "."%char] in Hin.
  apply elem_of_cons in Hin as [?|Hin]; [done|].
  apply elem_of_cons in Hin as [?|Hin]; [done|].
  by apply elem_of_nil in Hin.
Qed.

(** X21: for absolute [path] and [start], [RelPath] computes what
    [FSPath.relative] computes on the parsed paths: the same elements,
    the same count of parent levels, the same remainder, and the same
    string form.  Neither the working directory nor [root] plays a
    part. *)
Theorem RelPath_agrees_with_relative getcwd root path start :
  OsPath.isabs path = true → OsPath.isabs start = true →
  ∃ R r,
    RelPath_init getcwd path start root = Ok R
    ∧ relative (FSPath_new (AStr path) None 0 false) (AStr start) = Ok r
    ∧ path_list R = elems (FSPath_new (AStr path) None 0 false)
    ∧ Utils.parents R = _parents r
    ∧ Utils.remainder R = Path.remainder r
    ∧ RelPath_str R = Ok (FSPath_str r).
Proof.
  intros Hpath Hstart.
  pose proof (parse_clean path 0 false) as Hclean.
  rewrite relative_matching
    by (cbn [as_path]; by rewrite !parse_absolute).
  cbn [as_path]. unfold RelPath_init.
  rewrite bool_decide_eq_false_2 by (by intros ->).
  rewrite !abspath_absolute by done.
  unfold mbind, utils_bind. cbn [Py.bind].
  rewrite !components_normpath by done.
  set (P := elems (FSPath_new (AStr path) None 0 false)) in *.
  set (S := elems (FSPath_new (AStr start) None 0 false)).
  rewrite commonprefix_pair. cbn [Py.bind].
  pose proof (lcp_length_r P S) as Hle.
  set (i := length (OsPath.lcp P S)) in *. set (n := length S) in *.
  rewrite slice_from_nonneg, Nat2Z.id by lia.
  replace (Z.of_nat n - Z.of_nat i) with (Z.of_nat (n - i)) by lia.
  assert (Forall clean (drop i P)) as Hdrop by (by apply Forall_drop).
  assert (Path.remainder
            (mkFSPath (replicate (n - i) pardir ++ drop i P) false
               (Z.of_nat (n - i)))
          = Py.join "/" (drop i P)) as Hrem.
  { unfold Path.remainder. cbn [elems _parents].
    rewrite slice_from_nonneg, Nat2Z.id by lia.
    by rewrite drop_app_length' by (by rewrite length_replicate). }
  destruct (drop i P) as [|x l] eqn:Hrest.
  - (* nothing remains *)
    rewrite bool_decide_eq_true_2 by done. cbn [negb Py.bind].
    eexists _, _. split; [done|]. split; [done|].
    split; [done|]. split; [done|]. split; [by rewrite Hrem|].
    unfold RelPath_str, FSPath_str.
    cbn [Utils.parents Utils.remainder elems _absolute negb andb].
    rewrite app_nil_r, (bool_decide_eq_true_2 ("" = "")) by done.
    unfold Py.times. rewrite Nat2Z.id. cbn [negb].
    destruct (n - i)%nat as [|k] eqn:Hk.
    + done.
    + destruct (Z.eqb_spec (Z.of_nat (Datatypes.S k)) 0) as [?|_]; [lia|].
      cbn [andb]. rewrite bool_decide_eq_false_2 by done.
      rewrite append_nil_l. unfold join_all. cbn [replicate]. f_equal.
      apply joins_rendering. change (Forall clean (replicate (Datatypes.S k) pardir)).
      apply Forall_replicate, clean_pardir.
  - (* some elements remain *)
    apply Forall_cons in Hdrop as Hx. destruct Hx as [Hx _].
    pose proof (rendering_not_empty x l Hx) as Hne.
    rewrite bool_decide_eq_false_2 by done. cbn [negb Py.bind].
    unfold join_all at 1. rewrite joins_rendering by done. cbn [Py.bind].
    eexists _, _. split; [done|]. split; [done|].
    split; [done|]. split; [done|]. split; [by rewrite Hrem|].
    unfold RelPath_str, FSPath_str.
    cbn [Utils.parents Utils.remainder elems _absolute negb andb].
    rewrite (bool_decide_eq_false_2 (Py.join "/" (x :: l) = "")) by done.
    rewrite andb_false_r. cbn [negb].
    rewrite bool_decide_eq_false_2
      by (by destruct (replicate (n - i) pardir)).
    rewrite append_nil_l. unfold Py.times. rewrite Nat2Z.id.
    apply joins_flatten; [|done].
    apply Forall_replicate, clean_pardir.
Qed.

(** With a working directory given, [abspath] consults neither the
    process nor the root. *)
Lemma abspath_given_cwd getcwd path cwd root :
  abspath getcwd path (Some cwd) root
  = Ok (OsPath.normpath
          (if negb (OsPath.isabs path) then OsPath.join cwd path else path)).
Proof. unfold abspath. by destruct (OsPath.isabs path). Qed.

(** X22: [RelPath] raises for the empty path only.  Every other path is
    accepted, whatever [start] and [root] are: [root] is used as the
    working directory of relative paths and never to reject a path.  The
    count of parent levels is not negative, and the string form is
    defined. *)
Theorem RelPath_init_succeeds getcwd path start root :
  (path = "" → RelPath_init getcwd path start root = Raise NoPath)
  ∧ (path ≠ "" →
     ∃ R s, RelPath_init getcwd path start root = Ok R
            ∧ 0 ≤ Utils.parents R
            ∧ RelPath_str R = Ok s).
Proof.
  unfold RelPath_init. split.
  { intros ->. done. }
  intros Hpath. rewrite bool_decide_eq_false_2 by done.
  rewrite !abspath_given_cwd. unfold mbind, utils_bind. cbn [Py.bind].
  set (P := components _). set (S := components _).
  rewrite commonprefix_pair. cbn [Py.bind].
  pose proof (lcp_length_r P S) as Hle.
  set (i := length (OsPath.lcp P S)) in *. set (n := length S) in *.
  assert (∃ rem,
            (if negb (bool_decide (Py.slice_from P (Z.of_nat i) = []))
             then join_all (Py.slice_from P (Z.of_nat i)) else Ok "")
            = Ok rem) as [rem ->].
  { destruct (Py.slice_from P (Z.of_nat i)) as [|x l]; [by exists ""|].
    rewrite bool_decide_eq_false_2 by done. by eexists. }
  cbn [Py.bind].
  enough (∃ s, RelPath_str (mkRelPath P (Z.of_nat n - Z.of_nat i) rem)
               = Ok s) as [s Hs].
  { eexists _, s. split; [done|]. cbn [Utils.parents]. split; [lia|done]. }
  unfold RelPath_str. cbn [Utils.parents Utils.remainder].
  destruct (Z.eqb_spec (Z.of_nat n - Z.of_nat i) 0) as [Hzero|Hpos];
    cbn [andb].
  - rewrite Hzero. case_bool_decide as Hrem; cbn [negb]; by eexists.
  - unfold Py.times.
    destruct (Z.to_nat (Z.of_nat n - Z.of_nat i)) as [|k] eqn:Hk; [lia|].
    destruct (negb (bool_decide (rem = ""))); by eexists.
Qed.

Local Transparent Ascii.ascii_dec.
End RelPathFacts.

(** * Instances of the further properties *)

Section FurtherInstances.

Local Ltac by_computation := apply (bool_decide_unpack _); vm_compute; exact I.

Local Ltac all_clean :=
  repeat (apply Forall_cons; split); try apply Forall_nil;
  unfold clean; by_computation.

(** ** Paths *)

Lemma string_construction_invariant_witness :
  let reference := FSPath_new (AStr "/a/c") None 0 false in
  invariant reference ∧ _absolute reference = true
  ∧ invariant (FSPath_new (AStr "../b") (Some reference) 0 false).
Proof.
  intros reference.
  assert (invariant reference) as Hinv by by_computation.
  split; [exact Hinv|]. split; [reflexivity|].
  apply string_construction_invariant. by intros ? [= <-].
Defined.

Lemma string_construction_clean_witness :
  let reference := mkFSPath ["a"; "c"] true 0 in
  Forall clean (elems reference)
  ∧ Forall clean (elems (FSPath_new (AStr "../b") (Some reference) 0 false)).
Proof.
  intros reference.
  assert (Forall clean (elems reference)) as Hclean by all_clean.
  split; [exact Hclean|].
  apply string_construction_clean. by intros ? [= <-].
Defined.

Lemma absolute_invariant_witness :
  let p := FSPath_new (AStr "../b") None 0 false in
  let q := FSPath_new (AStr "/a/c") None 0 false in
  let r := mkFSPath ["a"; "b"] true 0 in
  invariant p ∧ invariant q ∧ absolute p (AObj q) = Ok r ∧ invariant r.
Proof.
  intros p q r.
  assert (invariant p) as Hp by by_computation.
  assert (invariant q) as Hq by by_computation.
  assert (absolute p (AObj q) = Ok r) as Habs by (vm_compute; reflexivity).
  split; [exact Hp|]. split; [exact Hq|]. split; [exact Habs|].
  exact (absolute_invariant p q r Hp Hq Habs).
Defined.

Lemma non_absolute_invariant_witness :
  let p := FSPath_new (AStr "/a/b") None 0 false in
  invariant p ∧ invariant (non_absolute p).
Proof.
  intros p. assert (invariant p) as Hp by by_computation.
  split; [exact Hp|]. exact (non_absolute_invariant p Hp).
Defined.

Lemma relative_invariant_witness :
  let p := FSPath_new (AStr "/a/b/c") None 0 false in
  let q := FSPath_new (AStr "/a/x") None 0 false in
  let r := mkFSPath [".."; "b"; "c"] false 1 in
  invariant p ∧ _parents p = 0 ∧ relative p (AObj q) = Ok r ∧ invariant r.
Proof.
  intros p q r.
  assert (invariant p) as Hp by by_computation.
  assert (relative p (AObj q) = Ok r) as Hrel by (vm_compute; reflexivity).
  split; [exact Hp|]. split; [reflexivity|]. split; [exact Hrel|].
  exact (relative_invariant p q r Hp eq_refl Hrel).
Defined.

Lemma relative_empty_iff_equal_witness :
  let t := FSPath_new (AStr "/a/b") None 0 false in
  let r := mkFSPath [] false 0 in
  relative t (AStr "/a/./b/") = Ok r
  ∧ (elems r = [] ↔ FSPath_eq t (AStr "/a/./b/") = true).
Proof.
  intros t r.
  assert (relative t (AStr "/a/./b/") = Ok r) as Hrel
    by (vm_compute; reflexivity).
  split; [exact Hrel|].
  exact (relative_empty_iff_equal t (AStr "/a/./b/") r Hrel).
Defined.

Lemma relative_is_canonical_witness :
  let a := FSPath_new (AStr "/a/b/c") None 0 false in
  let b := FSPath_new (AStr "/a/x") None 0 false in
  let r := mkFSPath [".."; "b"; "c"] false 1 in
  _absolute a = true ∧ _absolute b = true ∧ relative a (AObj b) = Ok r
  ∧ (y ← absolute r (AObj b); relative y (AObj b)) = Ok r.
Proof.
  intros a b r.
  assert (relative a (AObj b) = Ok r) as Hrel by (vm_compute; reflexivity).
  split; [reflexivity|]. split; [reflexivity|]. split; [exact Hrel|].
  exact (relative_is_canonical a b r eq_refl eq_refl Hrel).
Defined.

Lemma parse_against_is_parse_then_absolute_witness :
  let reference := FSPath_new (AStr "/a/b") None 0 false in
  _absolute reference = true
  ∧ absolute (FSPath_new (AStr "../../../c") None 0 false) (AObj reference)
    = Ok (FSPath_new (AStr "../../../c") (Some reference) 0 false).
Proof.
  intros reference. split; [reflexivity|].
  exact (parse_against_is_parse_then_absolute "../../../c" reference eq_refl).
Defined.

Lemma str_parse_roundtrip_witness :
  let p := mkFSPath [".."; "b"; "c"] false 1 in
  invariant p ∧ Forall clean (elems p)
  ∧ FSPath_str p = "../b/c"
  ∧ FSPath_new (AStr (FSPath_str p)) None 0 false = p.
Proof.
  intros p.
  assert (invariant p) as Hp by by_computation.
  assert (Forall clean (elems p)) as Hclean by all_clean.
  split; [exact Hp|]. split; [exact Hclean|]. split; [reflexivity|].
  exact (str_parse_roundtrip p Hp Hclean).
Defined.

Lemma get_system_path_absolute_witness :
  let p := FSPath_new (AStr "/a/b") None 0 false in
  _absolute p = true ∧ Forall clean (elems p)
  ∧ ∃ r, get_system_path p "/srv/tree" = Some r
         ∧ String.prefix "/srv/tree" r = true
         ∧ r = if bool_decide (elems p = []) then "/srv/tree"
               else OsPath.join "/srv/tree" (Py.join Path.sep (elems p)).
Proof.
  intros p.
  assert (Forall clean (elems p)) as Hclean by all_clean.
  split; [reflexivity|]. split; [exact Hclean|].
  exact (get_system_path_absolute p "/srv/tree" eq_refl Hclean).
Defined.

Lemma get_system_path_relative_witness :
  let p := FSPath_new (AStr "a/b") None 0 false in
  _absolute p = false ∧ Forall clean (elems p)
  ∧ get_system_path p "/srv/tree"
    = if bool_decide (elems p = []) then None else Some (FSPath_str p).
Proof.
  intros p.
  assert (Forall clean (elems p)) as Hclean by all_clean.
  split; [reflexivity|]. split; [exact Hclean|].
  exact (get_system_path_relative p "/srv/tree" eq_refl Hclean).
Defined.

(** ** Tar file names *)

Lemma Compression_new_registers_witness :
  let obj := mkCompression "gz" true ".gz" in
  ∃ cls',
    Compression_new initial "gz" true ["gz"; "tgz"; "taz"] = Ok (obj, cls')
    ∧ lookup_compression cls' "gz" = Some obj
    ∧ (∀ e, e ∈ ["gz"; "tgz"; "taz"] →
            ∃ d, _extensions cls' !! e = Some d ∧ compression d = Some obj)
    ∧ (∀ e, e ∉ ["gz"; "tgz"; "taz"] →
            _extensions cls' !! e = _extensions initial !! e).
Proof.
  intros obj.
  destruct (Compression_new initial "gz" true ["gz"; "tgz"; "taz"])
    as [[obj' cls']|e] eqn:Hnew; [|by vm_compute in Hnew].
  destruct (Compression_new_registers initial "gz" true ["gz"; "tgz"; "taz"]
              obj' cls' Hnew) as (Hn & Hs & He & Hobj & _ & Hin & Hout).
  assert (obj' = obj) as ->
    by (destruct obj'; simpl in Hn, Hs, He; by subst).
  exists cls'. split; [reflexivity|].
  split; [exact Hobj|]. split; [exact Hin | exact Hout].
Defined.

Lemma parsed_name_shape_witness :
  let cls := loaded true in
  let t := mkTarFileName "dir/archive" [".tar"; ".gz"]
             (Held (VComp (mkCompression "gz" true ".gz"))) in
  TarFileName_init cls "dir/archive.tar.gz" = Some (Ok t)
  ∧ (∃ e rest, extensions t = e :: rest
               ∧ (e = ".tar"
                  ∨ ∃ d, lookup_extension cls e = Some d
                         ∧ has_tar_ext d = Some true))
  ∧ (_compression t = unset ∧ get_compression t = VNone
     ∨ ∃ c, _compression t = Held (VComp c) ∧ supported c = true
            ∧ ∃ e d, e ∈ extensions t ∧ lookup_extension cls e = Some d
                     ∧ compression d = Some c).
Proof.
  intros cls t.
  assert (TarFileName_init cls "dir/archive.tar.gz" = Some (Ok t)) as Hinit
    by (vm_compute; reflexivity).
  split; [exact Hinit|].
  exact (parsed_name_shape cls "dir/archive.tar.gz" t Hinit).
Defined.

Lemma parse_render_witness :
  let cls := loaded true in
  let t := mkTarFileName "dir/archive" [".tar"; ".gz"]
             (Held (VComp (mkCompression "gz" true ".gz"))) in
  consistent cls
  ∧ TarFileName_init cls "dir/archive.tar.gz" = Some (Ok t)
  ∧ TarFileName_str t
    = (let '(dirname, basename) := OsPath.split "dir/archive.tar.gz" in
       OsPath.join dirname basename)
      +:+ (if archive_suffix_seen cls "dir/archive.tar.gz" then ""
           else ".tar").
Proof.
  intros cls t.
  assert (consistent cls) as Hcls by apply loaded_consistent.
  assert (TarFileName_init cls "dir/archive.tar.gz" = Some (Ok t)) as Hinit
    by (vm_compute; reflexivity).
  split; [exact Hcls|]. split; [exact Hinit|].
  exact (parse_render cls "dir/archive.tar.gz" t Hcls Hinit).
Defined.

Lemma set_compression_renders_witness :
  let cls := loaded true in
  let t := mkTarFileName "archive" [".tar"] unset in
  let t' := mkTarFileName "archive" [".tar"; ".bz2"]
              (Held (VComp (mkCompression "bz2" true ".bz2"))) in
  set_compression cls t (VStr "bz2") = Ok t'
  ∧ TarFileName_str t'
    = TarFileName_str t
      +:+ (if truthy (VStr "bz2")
           then default "" (extension <$> requested_scheme cls (VStr "bz2"))
           else "").
Proof.
  intros cls t t'.
  assert (set_compression cls t (VStr "bz2") = Ok t') as Hset
    by (vm_compute; reflexivity).
  split; [exact Hset|].
  exact (set_compression_renders cls t (VStr "bz2") t' Hset).
Defined.

Lemma parsed_name_settable_witness :
  let cls := loaded true in
  let t := mkTarFileName "archive" [".tgz"]
             (Held (VComp (mkCompression "gz" true ".gz"))) in
  TarFileName_init cls "archive.tgz" = Some (Ok t)
  ∧ ((∃ current,
        set_compression cls t (VStr "bz2") = Raise (AlreadySet current))
     ↔ get_compression t ≠ VNone).
Proof.
  intros cls t.
  assert (TarFileName_init cls "archive.tgz" = Some (Ok t)) as Hinit
    by (vm_compute; reflexivity).
  split; [exact Hinit|].
  exact (parsed_name_settable cls "archive.tgz" t (VStr "bz2") Hinit).
Defined.

(** ** Utilities *)

Lemma deroot_spec_witness :
  "/foo/bar" ≠ "/"
  ∧ (Utils.deroot "/foo/bar/baz/quux" "/foo/bar" = Ok "/baz/quux"
     ↔ ∃ tail, "/foo/bar/baz/quux" = "/foo/bar" +:+ tail
               ∧ (tail = "" ∨ Py.startswith tail "/" = true)
               ∧ "/baz/quux" = if bool_decide (tail = "") then "/" else tail).
Proof.
  assert ("/foo/bar" ≠ "/") as Hroot by done.
  split; [exact Hroot|].
  exact (deroot_spec "/foo/bar/baz/quux" "/foo/bar" "/baz/quux" Hroot).
Defined.

Lemma deroot_trailing_separator_witness :
  "/foo" ≠ "" ∧ "bar" ≠ "" ∧ Py.startswith "bar" "/" = false
  ∧ Utils.deroot ("/foo" +:+ "/" +:+ "bar") ("/foo" +:+ "/")
    = Raise (Utils.OutsideRoot ("/foo" +:+ "/" +:+ "bar") ("/foo" +:+ "/")).
Proof.
  assert ("/foo" ≠ "") as Hbase by done.
  assert ("bar" ≠ "") as Hbelow by done.
  split; [exact Hbase|]. split; [exact Hbelow|]. split; [reflexivity|].
  exact (deroot_trailing_separator "/foo" "bar" Hbase Hbelow eq_refl).
Defined.

Lemma RelPath_agrees_with_relative_witness :
  OsPath.isabs "/a/b/c" = true ∧ OsPath.isabs "/a/x" = true
  ∧ ∃ R r,
      Utils.RelPath_init "/home/user" "/a/b/c" "/a/x" "/" = Ok R
      ∧ relative (FSPath_new (AStr "/a/b/c") None 0 false) (AStr "/a/x")
        = Ok r
      ∧ Utils.path_list R = elems (FSPath_new (AStr "/a/b/c") None 0 false)
      ∧ Utils.parents R = _parents r
      ∧ Utils.remainder R = Path.remainder r
      ∧ Utils.RelPath_str R = Ok (FSPath_str r).
Proof.
  split; [reflexivity|]. split; [reflexivity|].
  exact (RelPath_agrees_with_relative "/home/user" "/" "/a/b/c" "/a/x"
           eq_refl eq_refl).
Defined.
End FurtherInstances.
